(** * parse_transcript.py: extraction, merging and rendering of interview records

    A shallow embedding of the three functions of [parse_transcript.py]
    ([parse_transcript], [merge_transcripts], [format_to_markdown]) and of the
    statement of [main] that chooses between them, followed by the
    properties the specification states about them.

    Conventions of the embedding.
    - A parsed JSON document is a value of type [json]; a Python [dict] is a
      finite map from strings, a Python [list] a list.
    - A Python [str] is the [string] of its UTF-8 bytes: concatenation,
      emptiness, equality and the ordering of strings are the same on both
      sides of that encoding.
    - A Python [int] is a [Z].  A Python [float] is represented by the
      rational number it denotes, so the comparisons between numbers are
      the exact ones Python makes; NaN and the infinities have no
      representation here.
    - Code that can raise returns a [result]. *)

From Stdlib Require Import ZArith QArith Lqa Ascii String List Permutation Sorted.
From stdpp Require Import gmap strings list fin_maps.
Close Scope Q_scope.
#[local] Set Warnings "-register-all".
#[local] Open Scope string_scope.
#[local] Open Scope list_scope.

(** ** Exceptions and the error monad *)

Inductive exn : Type :=
  | TypeError
  | AttributeError
  | KeyError
  | SystemExit
  | Dangling.   (* a reference to no object; only the store model can produce it *)

Inductive result (A : Type) : Type :=
  | Ok (a : A)
  | Raise (e : exn).
Arguments Ok {A} a.
Arguments Raise {A} e.

Definition bind {A B : Type} (m : result A) (k : A → result B) : result B :=
  match m with
  | Ok a => k a
  | Raise e => Raise e
  end.

Notation "x <- m ;; k" := (bind m (fun x => k))
  (at level 20, m at level 99, k at level 200,
   format "'[v' x  <-  m  ;;  '/' k ']'").

(** A [for] loop whose body updates the loop-carried state [s] and may raise. *)
Fixpoint foldM {A S : Type} (body : S → A → result S) (s : S) (l : list A)
  : result S :=
  match l with
  | [] => Ok s
  | x :: l' => s' <- body s x ;; foldM body s' l'
  end.

Fixpoint mapM {A B : Type} (f : A → result B) (l : list A) : result (list B) :=
  match l with
  | [] => Ok []
  | x :: l' => y <- f x ;; ys <- mapM f l' ;; Ok (y :: ys)
  end.

(** ** Parsed documents *)

Inductive json : Type :=
  | JNull
  | JBool (b : bool)
  | JInt (n : Z)
  | JFloat (q : Q)
  | JStr (s : string)
  | JList (items : list json)
  | JDict (fields : gmap string json).

(** The line feed, and the placeholder of line 34 ("unknown speaker"). *)
Definition nl : string := String (ascii_of_nat 10) "".
Definition unknown_speaker : string := "未知发言人".

(** ** The operations of the interpreter that the program uses *)

(** The number a value denotes, when it is one ([bool] is a subtype of [int]). *)
Definition num_val (v : json) : option Q :=
  match v with
  | JBool b => Some (if b then 1%Q else 0%Q)
  | JInt n => Some (inject_Z n)
  | JFloat q => Some q
  | _ => None
  end.

Definition Qlt_bool (a b : Q) : bool := negb (Qle_bool b a).

(** [bool(v)]. *)
Definition py_truthy (v : json) : bool :=
  match v with
  | JNull => false
  | JBool b => b
  | JInt n => negb (n =? 0)%Z
  | JFloat q => negb (Qeq_bool q 0)
  | JStr s => negb (String.eqb s "")
  | JList l => match l with [] => false | _ => true end
  | JDict d => negb (bool_decide (d = ∅))
  end.

(** [a == b]. *)
Fixpoint py_eq (a b : json) : bool :=
  match a, b with
  | JNull, JNull => true
  | JStr s, JStr t => String.eqb s t
  | JList l1, JList l2 =>
      (fix all2 (l1 l2 : list json) : bool :=
         match l1, l2 with
         | [], [] => true
         | x :: l1', y :: l2' => py_eq x y && all2 l1' l2'
         | _, _ => false
         end) l1 l2
  | JDict d1, JDict d2 =>
      bool_decide (size d1 = size d2) &&
      map_fold (fun k v acc =>
                  acc && match d2 !! k with
                         | Some w => py_eq v w
                         | None => false
                         end) true d1
  | _, _ =>
      match num_val a, num_val b with
      | Some x, Some y => Qeq_bool x y
      | _, _ => false
      end
  end.

(** [a < b]: numbers by value, strings and lists lexicographically; every
    other pair of operands is unorderable. *)
Fixpoint py_lt (a b : json) : result bool :=
  match a, b with
  | JStr s, JStr t => Ok (String.ltb s t)
  | JList l1, JList l2 =>
      (fix lex (l1 l2 : list json) : result bool :=
         match l1, l2 with
         | [], [] => Ok false
         | [], _ :: _ => Ok true
         | _ :: _, [] => Ok false
         | x :: l1', y :: l2' => if py_eq x y then lex l1' l2' else py_lt x y
         end) l1 l2
  | _, _ =>
      match num_val a, num_val b with
      | Some x, Some y => Ok (Qlt_bool x y)
      | _, _ => Raise TypeError
      end
  end.

(** [sub in s] on strings. *)
Fixpoint str_contains (sub s : string) : bool :=
  String.prefix sub s ||
  match s with
  | "" => false
  | String _ s' => str_contains sub s'
  end.

(** The characters of a string: every byte that continues a UTF-8 sequence
    (10xxxxxx) stays with the byte before it. *)
Definition is_continuation (c : ascii) : bool :=
  (128 <=? nat_of_ascii c)%nat && (nat_of_ascii c <? 192)%nat.

Fixpoint utf8_chars (s : string) : list string :=
  match s with
  | "" => []
  | String c s' =>
      let continues :=
        match s' with String c' _ => is_continuation c' | "" => false end in
      match utf8_chars s' with
      | g :: gs => if continues then String c g :: gs else String c "" :: g :: gs
      | [] => [String c ""]
      end
  end.

(** [key in v]. *)
Definition py_in (key : string) (v : json) : result bool :=
  match v with
  | JDict d => Ok (bool_decide (is_Some (d !! key)))
  | JList l => Ok (existsb (py_eq (JStr key)) l)
  | JStr s => Ok (str_contains key s)
  | _ => Raise TypeError
  end.

(** [v[key]] for a string [key]. *)
Definition py_getitem (v : json) (key : string) : result json :=
  match v with
  | JDict d => match d !! key with Some x => Ok x | None => Raise KeyError end
  | _ => Raise TypeError
  end.

(** [v.get(key, dflt)]: only a [dict] has the method. *)
Definition py_get (v : json) (key : string) (dflt : json) : result json :=
  match v with
  | JDict d => Ok (default dflt (d !! key))
  | _ => Raise AttributeError
  end.

(** The items a [for] loop draws from [v].  A finite map keeps no insertion
    order, so the keys of a [dict] come in the order of the map; the program
    iterates over a [dict] or a [str] only where it then raises on the first
    item. *)
Definition py_iter (v : json) : result (list json) :=
  match v with
  | JList l => Ok l
  | JDict d => Ok (JStr <$> (map_to_list d).*1)
  | JStr s => Ok (JStr <$> utf8_chars s)
  | _ => Raise TypeError
  end.

Definition py_for {S : Type} (v : json) (body : S → json → result S) (s : S)
  : result S :=
  items <- py_iter v ;; foldM body s items.

(** [''.join(parts)]: every part has to be a [str]. *)
Fixpoint py_join (parts : list json) : result string :=
  match parts with
  | [] => Ok ""
  | JStr s :: parts' => rest <- py_join parts' ;; Ok (s ++ rest)%string
  | _ :: _ => Raise TypeError
  end.

(** [sep.join(lines)] on strings. *)
Fixpoint str_join (sep : string) (lines : list string) : string :=
  match lines with
  | [] => ""
  | [x] => x
  | x :: rest => (x ++ sep ++ str_join sep rest)%string
  end.

(** ** Utterances *)

(** The record [parse_transcript] builds (lines 48-52).  [user_name] and
    [start_time] are stored as they were found, whatever their type;
    [content] is the result of a [join], hence a [str]. *)
Record utterance : Type := Utterance {
  speaker_name : json;
  content : string;
  start_time : json;
}.

(** ** [parse_transcript] (lines 26-54), on the document [json.load] returned *)

(** Lines 40-42, the body of the loop over the words of a sentence. *)
Definition word_body (content_parts : list json) (word : json)
  : result (list json) :=
  text <- py_get word "text" (JStr "") ;;
  Ok (if py_truthy text then content_parts ++ [text] else content_parts).

(** Lines 39-42, the body of the loop over the sentences of a paragraph. *)
Definition sentence_body (content_parts : list json) (sentence : json)
  : result (list json) :=
  words <- py_get sentence "words" (JList []) ;;
  py_for words word_body content_parts.

(** Lines 33-52, the body of the loop over the paragraphs. *)
Definition paragraph_body (transcript : list utterance) (paragraph : json)
  : result (list utterance) :=
  speaker <- py_get paragraph "speaker" (JDict ∅) ;;
  speaker_name <- py_get speaker "user_name" (JStr unknown_speaker) ;;
  sentences <- py_get paragraph "sentences" (JList []) ;;
  content_parts <- py_for sentences sentence_body [] ;;
  if py_truthy (JList content_parts) then
    content <- py_join content_parts ;;
    start_time <- py_get paragraph "start_time" (JInt 0) ;;
    Ok (transcript ++ [Utterance speaker_name content start_time])
  else Ok transcript.

Definition parse_transcript (data : json) : result (list utterance) :=
  has_minutes <- py_in "minutes" data ;;
  has_paragraphs <-
    (if has_minutes
     then minutes <- py_getitem data "minutes" ;; py_in "paragraphs" minutes
     else Ok false) ;;
  if has_paragraphs then
    minutes <- py_getitem data "minutes" ;;
    paragraphs <- py_getitem minutes "paragraphs" ;;
    py_for paragraphs paragraph_body []
  else Ok [].

(** ** [merge_transcripts] (lines 67-74) *)

(** [list.sort(key=...)] is the interpreter's: it computes the key of every
    item, then sorts stably, comparing keys with [<] only.  The embedding
    inserts the items one after the other into the sorted prefix, each behind
    the items it is not smaller than, which is the result of every stable
    sort on keys that [<] orders totally. *)
Fixpoint insort {A : Type} (x : json * A) (sorted : list (json * A))
  : result (list (json * A)) :=
  match sorted with
  | [] => Ok [x]
  | y :: sorted' =>
      smaller <- py_lt x.1 y.1 ;;
      if smaller then Ok (x :: y :: sorted')
      else rest <- insort x sorted' ;; Ok (y :: rest)
  end.

Definition list_sort {A : Type} (key : A → result json) (l : list A)
  : result (list A) :=
  keyed <- mapM (fun x => k <- key x ;; Ok (k, x)) l ;;
  sorted <- foldM (fun sorted x => insort x sorted) [] keyed ;;
  Ok (sorted.*2).

Definition merge_transcripts (transcripts : list (list utterance))
  : result (list utterance) :=
  let merged :=
    fold_left (fun merged transcript => merged ++ transcript) transcripts [] in
  list_sort (fun x => Ok (start_time x)) merged.

(** ** [format_to_markdown] (lines 87-96) *)

Section Formatter.

(** [str(v)] for a value that is not a string, as the interpreter prints
    it.  No property below depends on it. *)
Variable py_str : json → string.

(** The replacement field [{v}] of an f-string. *)
Definition py_format (v : json) : string :=
  match v with
  | JStr s => s
  | _ => py_str v
  end.

Definition format_to_markdown (transcript : list utterance) : string :=
  let lines :=
    fold_left
      (fun lines record =>
         lines ++ [("**[" ++ py_format (speaker_name record) ++ "]**: "
                    ++ content record ++ nl)%string])
      transcript [] in
  str_join nl lines.

End Formatter.

(** ** [main], lines 126-135: the transcript handed to the formatter *)

Definition main_merged_transcript (all_transcripts : list (list utterance))
  : result (list utterance) :=
  match all_transcripts with
  | [] => Raise SystemExit
  | first :: _ =>
      if (1 <? length all_transcripts)%nat
      then merge_transcripts all_transcripts
      else Ok first
  end.

(** ** [merge_transcripts] on a store of objects

    The same function with the lists and the records as objects of a store,
    reached through references, so that what the function writes and what
    it leaves alone can be stated. *)
Module Store.

Abbreviation loc := positive.

Inductive obj : Type :=
  | OList (items : list loc)
  | ODict (record : utterance).

Abbreviation store := (gmap positive obj).

(** The items of the list at [l]; iterating anything else ends in a
    [TypeError] here, at the latest when the sort takes the key of an item
    that is not a record. *)
Definition get_list (h : store) (l : loc) : result (list loc) :=
  match h !! l with
  | Some (OList items) => Ok items
  | Some (ODict _) => Raise TypeError
  | None => Raise Dangling
  end.

(** [x['start_time']]. *)
Definition get_start_time (h : store) (x : loc) : result json :=
  match h !! x with
  | Some (ODict record) => Ok (start_time record)
  | Some (OList _) => Raise TypeError
  | None => Raise Dangling
  end.

(** [merged.extend(transcript)]. *)
Definition extend (merged : loc) (h : store) (transcript : loc)
  : result store :=
  items <- get_list h transcript ;;
  current <- get_list h merged ;;
  Ok (<[merged := OList (current ++ items)]> h).

Definition merge_transcripts (transcripts : loc) (h : store)
  : result (loc * store) :=
  let merged := fresh (dom h) in
  let h := <[merged := OList []]> h in
  inputs <- get_list h transcripts ;;
  h <- foldM (extend merged) h inputs ;;
  current <- get_list h merged ;;
  sorted <- list_sort (get_start_time h) current ;;
  Ok (merged, <[merged := OList sorted]> h).

(** What a store holds at a reference, read as values. *)
Definition get_record (h : store) (x : loc) : result utterance :=
  match h !! x with
  | Some (ODict record) => Ok record
  | Some (OList _) => Raise TypeError
  | None => Raise Dangling
  end.

Definition read_transcript (h : store) (l : loc) : result (list utterance) :=
  items <- get_list h l ;; mapM (get_record h) items.

Definition read_transcripts (h : store) (l : loc)
  : result (list (list utterance)) :=
  inputs <- get_list h l ;; mapM (read_transcript h) inputs.

End Store.

(** ** Vocabulary of the properties *)

(** *** Documents whose present fields have the expected shape

    A document is well formed when every field the extractor descends into
    is, where present, of the container type the extractor expects, and
    every [text] that is present is a string.  Any field may be absent. *)
Definition wf_word (word : json) : bool :=
  match word with
  | JDict f =>
      match f !! "text" with
      | None | Some (JStr _) => true
      | Some _ => false
      end
  | _ => false
  end.

Definition wf_sentence (sentence : json) : bool :=
  match sentence with
  | JDict f =>
      match f !! "words" with
      | None => true
      | Some (JList words) => forallb wf_word words
      | Some _ => false
      end
  | _ => false
  end.

Definition wf_paragraph (paragraph : json) : bool :=
  match paragraph with
  | JDict f =>
      match f !! "speaker" with
      | None | Some (JDict _) => true
      | Some _ => false
      end
      && match f !! "sentences" with
         | None => true
         | Some (JList sentences) => forallb wf_sentence sentences
         | Some _ => false
         end
  | _ => false
  end.

Definition wf_document (data : json) : bool :=
  match data with
  | JDict d =>
      match d !! "minutes" with
      | None => true
      | Some (JDict m) =>
          match m !! "paragraphs" with
          | None => true
          | Some (JList paragraphs) => forallb wf_paragraph paragraphs
          | Some _ => false
          end
      | Some _ => false
      end
  | _ => false
  end.

(** *** The word text fragments of a paragraph, as the specification reads
    them (section 4.1, step 2): the [text] of every word of every sentence,
    in source order, an absent field standing for its default. *)
Definition text_of (word : json) : string :=
  match word with
  | JDict f => match f !! "text" with Some (JStr s) => s | _ => "" end
  | _ => ""
  end.

Definition words_of (sentence : json) : list json :=
  match sentence with
  | JDict f => match f !! "words" with Some (JList words) => words | _ => [] end
  | _ => []
  end.

Definition sentences_of (paragraph : json) : list json :=
  match paragraph with
  | JDict f => match f !! "sentences" with Some (JList l) => l | _ => [] end
  | _ => []
  end.

Definition word_texts (paragraph : json) : list string :=
  text_of <$> concat (words_of <$> sentences_of paragraph).

Definition nonempty (s : string) : bool := negb (String.eqb s "").

(** Strings put end to end, nothing between them. *)
Definition str_concat (l : list string) : string := foldr String.append "" l.

(** The speaker name and the time section 4.1 (steps 1 and 5) gives a
    paragraph. *)
Definition speaker_of (paragraph : json) : json :=
  match paragraph with
  | JDict f =>
      match f !! "speaker" with
      | Some (JDict s) => default (JStr unknown_speaker) (s !! "user_name")
      | _ => JStr unknown_speaker
      end
  | _ => JStr unknown_speaker
  end.

Definition start_of (paragraph : json) : json :=
  match paragraph with
  | JDict f => default (JInt 0) (f !! "start_time")
  | _ => JInt 0
  end.

(** What one paragraph contributes according to section 4.1, steps 3-5. *)
Definition paragraph_utterances (paragraph : json) : list utterance :=
  if existsb nonempty (word_texts paragraph)
  then [Utterance (speaker_of paragraph)
                  (str_concat (List.filter nonempty (word_texts paragraph)))
                  (start_of paragraph)]
  else [].

(** *** Utterances ordered by time *)

Definition is_number (v : json) : bool :=
  match num_val v with Some _ => true | None => false end.

(** The number a start time denotes (0 for what is not a number). *)
Definition time_of (v : json) : Q := default 0%Q (num_val v).

Definition utime (x : utterance) : Q := time_of (start_time x).

(** Every start time is a number, the type the data model gives the field. *)
Definition timed (transcript : list utterance) : bool :=
  forallb (fun x => is_number (start_time x)) transcript.

Definition all_timed (transcripts : list (list utterance)) : bool :=
  forallb timed transcripts.

(** Nondecreasing in [start_time]. *)
Definition time_sorted (transcript : list utterance) : Prop :=
  StronglySorted (fun x y => (utime x <= utime y)%Q) transcript.

(** The records whose start time equals [t], in the order of the list. *)
Definition at_time (t : Q) (transcript : list utterance) : list utterance :=
  List.filter (fun x => Qeq_bool (utime x) t) transcript.

(** *** Stable insertion on a numeric key

    The list [insort] builds when no comparison raises. *)
Section StableSortDef.
Context {A : Type} (key : A → Q).

Fixpoint insert (x : A) (sorted : list A) : list A :=
  match sorted with
  | [] => [x]
  | y :: sorted' =>
      if Qlt_bool (key x) (key y) then x :: y :: sorted'
      else y :: insert x sorted'
  end.

Definition sort_onto (sorted l : list A) : list A :=
  fold_left (fun sorted x => insert x sorted) l sorted.

Definition stable_sort (l : list A) : list A := sort_onto [] l.

Definition key_le (x y : A) : Prop := (key x <= key y)%Q.

Definition with_key (t : Q) (l : list A) : list A :=
  List.filter (fun x => Qeq_bool (key x) t) l.

End StableSortDef.

(** *** Sample data *)

Definition alice : utterance := Utterance (JStr "Alice") "Hello" (JInt 0).

Definition said (name : string) (t : Z) : utterance :=
  Utterance (JStr name) name (JInt t).

(** One document whose second record is the earlier one, and the same
    records in time order. *)
Definition late_first : list utterance := [said "a" 5; said "b" 2].
Definition in_order : list utterance := [said "b" 2; said "a" 5].

(** A rendering of the values that are not strings, for the examples. *)
Definition no_str : json → string := fun _ => "".

Definition word (t : string) : json := JDict {[ "text" := JStr t ]}.

Definition paragraph (speaker : json) (texts : list string) (t : Z) : json :=
  JDict (<[ "speaker" := speaker ]>
        (<[ "sentences" := JList [JDict {[ "words" := JList (word <$> texts) ]}] ]>
        {[ "start_time" := JInt t ]})).

Definition document (paragraphs : list json) : json :=
  JDict {[ "minutes" := JDict {[ "paragraphs" := JList paragraphs ]} ]}.

(** A paragraph with nothing but its sentences: one word with a text and
    one without. *)
Definition bare_paragraph : gmap string json :=
  {[ "sentences" := JList [JDict {[ "words" := JList [word "x"; JDict ∅] ]}] ]}.

(** A store with the list 1 of the two transcripts 2 and 3, and their
    records at 4, 5 and 6. *)
Definition sample_store : gmap positive Store.obj :=
  list_to_map
    [(1%positive, Store.OList [2%positive; 3%positive]);
     (2%positive, Store.OList [4%positive; 5%positive]);
     (3%positive, Store.OList [6%positive]);
     (4%positive, Store.ODict (said "a" 5));
     (5%positive, Store.ODict (said "b" 2));
     (6%positive, Store.ODict (said "c" 3))].

Definition sample_paragraphs : list json :=
  [paragraph (JDict {[ "user_name" := JStr "Al" ]}) ["Hi"; ""; " there"] 5;
   paragraph (JDict ∅) [""] 7].

(** ** [main] (lines 99-152)

    The process as a function of its arguments and of the files it can
    read.  What [open] and [json.load] make of a path is given: a path that
    exists maps to the document that was loaded, or to [None] when opening
    or decoding raises.  What the process prints is the list of its [print]
    statements, each with the values it interpolates; writing the output
    file is taken to succeed. *)

(** What the [except] clause of line 122 can catch. *)
Inductive failure : Type :=
  | LoadFailure                   (* [open] or [json.load] raised *)
  | ExtractFailure (e : exn).     (* the extraction raised [e] *)

Inductive event : Type :=
  | Usage                                   (* lines 102-105 *)
  | Missing (file_path : string)            (* line 114 *)
  | Parsing (file_path : string)            (* line 118 *)
  | Extracted (n : nat)                     (* line 121 *)
  | Failed (file_path : string) (e : failure)   (* line 123 *)
  | NothingParsed                           (* line 127 *)
  | Merging                                 (* line 132 *)
  | Total (n : nat)                         (* line 137 *)
  | Markdown (text : string)                (* lines 143-146 *)
  | Saved (output_file : string).           (* line 152 *)

Inductive outcome : Type :=
  | Finished
  | Exit (status : Z)
  | Uncaught (e : exn).

Record run : Type := Run {
  stdout : list event;
  ending : outcome;
  written : option (string * string);   (* file name and text *)
}.

(** [parse_transcript(file_path)], lines 23-54, for a path that may be
    missing. *)
Definition parse_transcript_file (fs : gmap string (option json))
    (file_path : string) : failure + list utterance :=
  match fs !! file_path with
  | Some (Some data) =>
      match parse_transcript data with
      | Ok transcript => inr transcript
      | Raise e => inl (ExtractFailure e)
      end
  | _ => inl LoadFailure
  end.

(** Lines 112-124, the body of the loop over the paths; the state is
    [all_transcripts] and what has been printed. *)
Definition load_step (fs : gmap string (option json))
    (state : list (list utterance) * list event) (file_path : string)
  : list (list utterance) * list event :=
  let (all_transcripts, out) := state in
  if bool_decide (is_Some (fs !! file_path)) then
    let out := out ++ [Parsing file_path] in
    match parse_transcript_file fs file_path with
    | inr transcript =>
        (all_transcripts ++ [transcript], out ++ [Extracted (length transcript)])
    | inl e => (all_transcripts, out ++ [Failed file_path e])
    end
  else (all_transcripts, out ++ [Missing file_path]).

Section Main.

Variable py_str : json → string.
Variable fs : gmap string (option json).

(** Lines 126-152: what follows the loop, from its final state. *)
Definition conclude (state : list (list utterance) * list event) : run :=
  let (all_transcripts, out) := state in
  match all_transcripts with
  | [] => Run (out ++ [NothingParsed]) (Exit 1) None
  | first :: _ =>
      let several := (1 <? length all_transcripts)%nat in
      let out := if several then out ++ [Merging] else out in
      match (if several then merge_transcripts all_transcripts
             else Ok first) with
      | Raise e => Run out (Uncaught e) None
      | Ok merged_transcript =>
          let markdown_output := format_to_markdown py_str merged_transcript in
          Run (out ++ [Total (length merged_transcript);
                       Markdown markdown_output;
                       Saved "transcript.md"])
              Finished
              (Some ("transcript.md", markdown_output))
      end
  end.

Definition main (argv : list string) : run :=
  if (length argv <? 2)%nat then Run [Usage] (Exit 1) None
  else conclude (fold_left (load_step fs) (drop 1 argv) ([], [])).

End Main.

(** ** Vocabulary of the further properties *)

(** The values that are neither containers nor strings. *)
Definition is_scalar (v : json) : bool :=
  match v with
  | JNull | JBool _ | JInt _ | JFloat _ => true
  | _ => false
  end.

Definition is_dict (v : json) : bool :=
  match v with JDict _ => true | _ => false end.

Definition is_str (v : json) : bool :=
  match v with JStr _ => true | _ => false end.

(** The values [<] never accepts as an operand. *)
Definition unorderable (v : json) : bool :=
  match v with JNull | JDict _ => true | _ => false end.

(** A paragraph of the expected shape whose [text] fields may hold any
    value. *)
Definition shaped_sentence (sentence : json) : bool :=
  match sentence with
  | JDict f =>
      match f !! "words" with
      | None => true
      | Some (JList words) => forallb is_dict words
      | Some _ => false
      end
  | _ => false
  end.

Definition shaped_paragraph (paragraph : json) : bool :=
  match paragraph with
  | JDict f =>
      match f !! "speaker" with
      | None | Some (JDict _) => true
      | Some _ => false
      end
      && match f !! "sentences" with
         | None => true
         | Some (JList sentences) => forallb shaped_sentence sentences
         | Some _ => false
         end
  | _ => false
  end.

(** The value of [text] of a word, the default for an absent one, and the
    values of a paragraph in source order. *)
Definition text_value (word : json) : json :=
  match word with
  | JDict f => default (JStr "") (f !! "text")
  | _ => JStr ""
  end.

Definition text_values (paragraph : json) : list json :=
  text_value <$> concat (words_of <$> sentences_of paragraph).

(** The line of one record (line 94). *)
Definition record_line (py_str : json → string) (record : utterance) : string :=
  ("**[" ++ py_format py_str (speaker_name record) ++ "]**: "
   ++ content record ++ nl)%string.


Definition extracted (fs : gmap string (option json)) (file_paths : list string)
  : list (list utterance) :=
  omap (fun p => match parse_transcript_file fs p with
                 | inr transcript => Some transcript
                 | inl _ => None
                 end) file_paths.

(** The counts the process reported, one per [Extracted] event. *)
Definition reported_counts (out : list event) : list nat :=
  omap (fun e => match e with Extracted n => Some n | _ => None end) out.

(** *** More sample data *)

Definition sample_fs : gmap string (option json) :=
  list_to_map
    [("a.json", Some (document [paragraph (JDict {[ "user_name" := JStr "A" ]})
                                          ["Hi"; ""; " there"] 5]));
     ("b.json", Some (document [paragraph (JDict {[ "user_name" := JStr "B" ]})
                                          ["Hi"; ""; " there"] 2]));
     ("broken.json", None);
     ("null.json", Some (JDict {[ "minutes" := JNull ]}))].


Definition untimed (name : string) : utterance :=
  Utterance (JStr name) name JNull.

(** * Properties *)

(** ** The error monad and the loops *)

Lemma mapM_total {A B : Type} (f : A → result B) (g : A → B) (l : list A) :
  Forall (fun x => f x = Ok (g x)) l → mapM f l = Ok (g <$> l).
Proof.
  induction 1 as [|x l Hx _ IH]; simpl; [done|]. by rewrite Hx, IH.
Qed.

Lemma filter_nil_existsb {A : Type} (f : A → bool) (l : list A) :
  existsb f l = false → List.filter f l = [].
Proof.
  induction l as [|x l IH]; simpl; [done|].
  destruct (f x); simpl; [discriminate|auto].
Qed.

Lemma filter_cons_existsb {A : Type} (f : A → bool) (l : list A) :
  existsb f l = true → ∃ x l', List.filter f l = x :: l'.
Proof.
  induction l as [|x l IH]; simpl; [discriminate|].
  destruct (f x); simpl; eauto.
Qed.

(** ** The extractor on well-formed paragraphs *)

Lemma word_body_wf (parts : list json) (w : json) :
  wf_word w = true →
  word_body parts w
  = Ok (parts ++ (JStr <$> List.filter nonempty [text_of w])).
Proof.
  destruct w as [| | | | | |f]; try discriminate. unfold wf_word, word_body, text_of.
  csimpl. destruct (f !! "text") as [[| | | |s| |]|]; try discriminate; intros _; csimpl.
  - unfold nonempty. destruct (negb (s =? ""))%string; csimpl; [done|].
    by rewrite app_nil_r.
  - by rewrite app_nil_r.
Qed.

Lemma words_loop_wf (words : list json) (parts : list json) :
  forallb wf_word words = true →
  foldM word_body parts words
  = Ok (parts ++ (JStr <$> List.filter nonempty (text_of <$> words))).
Proof.
  revert parts. induction words as [|w words IH]; intros parts; csimpl.
  - intros _. by rewrite app_nil_r.
  - intros [Hw Hws]%andb_prop. rewrite (word_body_wf _ _ Hw). csimpl.
    rewrite (IH _ Hws). f_equal.
    destruct (nonempty (text_of w)); csimpl; by rewrite <- ?app_assoc, ?app_nil_r.
Qed.

Lemma sentence_body_wf (parts : list json) (s : json) :
  wf_sentence s = true →
  sentence_body parts s
  = Ok (parts ++ (JStr <$> List.filter nonempty (text_of <$> words_of s))).
Proof.
  destruct s as [| | | | | |f]; try discriminate.
  unfold wf_sentence, sentence_body, words_of, py_for. csimpl.
  destruct (f !! "words") as [[| | | | |ws|]|]; try discriminate; csimpl.
  - apply words_loop_wf.
  - intros _. by rewrite app_nil_r.
Qed.

Lemma sentences_loop_wf (sentences : list json) (parts : list json) :
  forallb wf_sentence sentences = true →
  foldM sentence_body parts sentences
  = Ok (parts ++ (JStr <$> List.filter nonempty
                     (text_of <$> concat (words_of <$> sentences)))).
Proof.
  revert parts. induction sentences as [|s sentences IH]; intros parts; csimpl.
  - intros _. by rewrite app_nil_r.
  - intros [Hs Hss]%andb_prop. rewrite (sentence_body_wf _ _ Hs). csimpl.
    rewrite (IH _ Hss). f_equal.
    rewrite fmap_app, List.filter_app, fmap_app. by rewrite app_assoc.
Qed.

Lemma py_join_strings (l : list string) :
  py_join (JStr <$> l) = Ok (str_concat l).
Proof. induction l as [|s l IH]; csimpl; [done|]. by rewrite IH. Qed.

Lemma sentences_of_wf (f : gmap string json) :
  wf_paragraph (JDict f) = true →
  py_get (JDict f) "sentences" (JList []) = Ok (JList (sentences_of (JDict f)))
  ∧ forallb wf_sentence (sentences_of (JDict f)) = true.
Proof.
  unfold wf_paragraph, sentences_of. csimpl. intros [_ H]%andb_prop.
  destruct (f !! "sentences") as [[| | | | |ss|]|]; try discriminate; done.
Qed.

(** A well-formed paragraph appends to the transcript what section 4.1
    says it contributes. *)
Lemma paragraph_body_wf (transcript : list utterance) (p : json) :
  wf_paragraph p = true →
  paragraph_body transcript p = Ok (transcript ++ paragraph_utterances p).
Proof.
  destruct p as [| | | | | |f]; try discriminate. intros Hwf.
  destruct (sentences_of_wf f Hwf) as [Hget Hss].
  assert (Hname : ∃ sp, py_get (JDict f) "speaker" (JDict ∅) = Ok sp
            ∧ py_get sp "user_name" (JStr unknown_speaker)
              = Ok (speaker_of (JDict f))).
  { unfold wf_paragraph in Hwf. apply andb_prop in Hwf as [Hsp _].
    unfold speaker_of. csimpl.
    destruct (f !! "speaker") as [[| | | | | |s]|]; try discriminate;
      eexists; split; reflexivity. }
  destruct Hname as (sp & Hsp & Huser).
  unfold paragraph_body. rewrite Hsp. cbn [bind]. rewrite Huser. cbn [bind].
  rewrite Hget. cbn [bind]. unfold py_for. cbn [py_iter bind].
  rewrite (sentences_loop_wf _ _ Hss). cbn [bind app].
  unfold paragraph_utterances, word_texts.
  set (texts := text_of <$> concat (words_of <$> sentences_of (JDict f))).
  destruct (existsb nonempty texts) eqn:Hex.
  - rewrite py_join_strings. cbn [bind py_get default].
    destruct (filter_cons_existsb _ _ Hex) as (x & l' & ->). reflexivity.
  - rewrite (filter_nil_existsb _ _ Hex). csimpl. by rewrite app_nil_r.
Qed.

Lemma paragraphs_loop_wf (paragraphs : list json) (transcript : list utterance) :
  forallb wf_paragraph paragraphs = true →
  foldM paragraph_body transcript paragraphs
  = Ok (transcript ++ concat (paragraph_utterances <$> paragraphs)).
Proof.
  revert transcript.
  induction paragraphs as [|p ps IH]; intros transcript; csimpl.
  - intros _. by rewrite app_nil_r.
  - intros [Hp Hps]%andb_prop. rewrite (paragraph_body_wf _ _ Hp). csimpl.
    rewrite (IH _ Hps). by rewrite app_assoc.
Qed.

(** The extractor on a document that has the path [minutes.paragraphs]. *)
Lemma parse_transcript_paragraphs (d m : gmap string json) (ps : list json) :
  d !! "minutes" = Some (JDict m) →
  m !! "paragraphs" = Some (JList ps) →
  parse_transcript (JDict d) = foldM paragraph_body [] ps.
Proof.
  intros Hd Hm. unfold parse_transcript, py_in, py_getitem, py_for.
  rewrite Hd. rewrite bool_decide_eq_true_2 by eauto. cbn [bind].
  rewrite Hm. rewrite bool_decide_eq_true_2 by eauto. reflexivity.
Qed.

Lemma extractor_without_paragraphs_is_empty_aux (d : gmap string json) :
  d !! "minutes" = None
  ∨ (∃ m, d !! "minutes" = Some (JDict m) ∧ m !! "paragraphs" = None) →
  parse_transcript (JDict d) = Ok [].
Proof.
  unfold parse_transcript, py_in, py_getitem.
  intros [Hd|(m & Hd & Hm)]; rewrite Hd.
  - rewrite bool_decide_eq_false_2; [done|]. by intros [? ?].
  - rewrite bool_decide_eq_true_2 by eauto. cbn [bind]. rewrite Hm.
    rewrite bool_decide_eq_false_2; [done|]. by intros [? ?].
Qed.

(** ** The extractor: claims *)

(** C3.  In a document whose paragraphs are well formed, the extractor's
    result is made of one block per paragraph, in order: a paragraph with at
    least one non-empty word text fragment gives exactly one utterance, whose
    content is its non-empty fragments put end to end in source order; a
    paragraph whose fragments are all empty or absent gives nothing. *)
Theorem extractor_one_utterance_per_spoken_paragraph
    (d m : gmap string json) (ps : list json) :
  d !! "minutes" = Some (JDict m) →
  m !! "paragraphs" = Some (JList ps) →
  forallb wf_paragraph ps = true →
  ∃ outs : list (list utterance),
    parse_transcript (JDict d) = Ok (concat outs)
    ∧ Forall2
        (fun p out =>
           if existsb nonempty (word_texts p)
           then ∃ x, out = [x]
                  ∧ content x = str_concat (List.filter nonempty (word_texts p))
           else out = [])
        ps outs.
Proof.
  intros Hd Hm Hwf. exists (paragraph_utterances <$> ps). split.
  - rewrite (parse_transcript_paragraphs d m ps Hd Hm).
    by rewrite (paragraphs_loop_wf ps [] Hwf).
  - clear Hd Hm Hwf. induction ps as [|p ps IH]; csimpl; constructor; [|done].
    unfold paragraph_utterances.
    destruct (existsb nonempty (word_texts p)); [|done]. eauto.
Qed.

Lemma extractor_one_utterance_per_spoken_paragraph_witness :
  ∃ outs : list (list utterance),
    parse_transcript (document sample_paragraphs) = Ok (concat outs)
    ∧ Forall2
        (fun p out =>
           if existsb nonempty (word_texts p)
           then ∃ x, out = [x]
                  ∧ content x = str_concat (List.filter nonempty (word_texts p))
           else out = [])
        sample_paragraphs outs.
Proof.
  apply (extractor_one_utterance_per_spoken_paragraph
           {[ "minutes" := JDict {[ "paragraphs" := JList sample_paragraphs ]} ]}
           {[ "paragraphs" := JList sample_paragraphs ]}
           sample_paragraphs);
    vm_compute; reflexivity.
Defined.

(** C6, as the code has it.  A document, a mapping, without the key
    [minutes], or whose [minutes] is a mapping without the key [paragraphs],
    gives the empty sequence, and no exception.  A [minutes] that is
    present and is [null], a boolean or a number makes the extractor raise
    [TypeError]. *)
Theorem extractor_without_paragraphs_is_empty :
  (∀ d : gmap string json,
     d !! "minutes" = None
     ∨ (∃ m, d !! "minutes" = Some (JDict m) ∧ m !! "paragraphs" = None) →
     parse_transcript (JDict d) = Ok [])
  ∧ (∀ (d : gmap string json) (v : json),
       d !! "minutes" = Some v →
       is_scalar v = true →
       parse_transcript (JDict d) = Raise TypeError).
Proof.
  split; [apply extractor_without_paragraphs_is_empty_aux|].
  intros d v Hd Hv. unfold parse_transcript, py_in at 1, py_getitem.
  rewrite Hd, bool_decide_eq_true_2 by eauto. cbn [bind]. by destruct v.
Qed.

Lemma extractor_without_paragraphs_is_empty_witness :
  parse_transcript (JDict {[ "title" := JStr "weekly" ]}) = Ok []
  ∧ parse_transcript (JDict {[ "minutes" := JDict {[ "id" := JInt 7 ]} ]}) = Ok []
  ∧ parse_transcript (JDict {[ "minutes" := JInt 7 ]}) = Raise TypeError.
Proof.
  destruct extractor_without_paragraphs_is_empty as [Hempty Hraise].
  refine (conj _ (conj _ _)).
  - apply (Hempty {[ "title" := JStr "weekly" ]}).
    left. vm_compute. reflexivity.
  - apply (Hempty {[ "minutes" := JDict {[ "id" := JInt 7 ]} ]}).
    right. exists {[ "id" := JInt 7 ]}. split; vm_compute; reflexivity.
  - apply (Hraise {[ "minutes" := JInt 7 ]} (JInt 7)); vm_compute; reflexivity.
Defined.

(** C6 as stated fails: the document whose [minutes] is [null] has no key
    [paragraphs] under [minutes], and the extractor raises instead of
    returning the empty sequence. *)
Lemma extractor_null_minutes_is_not_empty :
  parse_transcript (JDict {[ "minutes" := JNull ]}) = Raise TypeError
  ∧ parse_transcript (JDict {[ "minutes" := JNull ]}) ≠ Ok [].
Proof. split; vm_compute; [reflexivity|discriminate]. Qed.

(** What the extractor does when [minutes] is present and not a mapping:
    the membership test on [null] raises. *)
Example extractor_minutes_null :
  parse_transcript (JDict {[ "minutes" := JNull ]}) = Raise TypeError.
Proof. vm_compute. reflexivity. Qed.

(** C7.  On a well-formed document the extractor raises nothing, and every
    absent optional field is read as its default: no [speaker], or a
    [speaker] without [user_name], gives the placeholder name; no
    [start_time] gives 0; no [sentences] and no [words] are the empty list;
    no [text] is the empty string. *)
Theorem extractor_defaults_for_absent_fields :
  (∀ data, wf_document data = true → ∃ tr, parse_transcript data = Ok tr)
  ∧ (∀ tr f,
       wf_paragraph (JDict f) = true →
       existsb nonempty (word_texts (JDict f)) = true →
       f !! "speaker" = None
       ∨ (∃ s, f !! "speaker" = Some (JDict s) ∧ s !! "user_name" = None) →
       ∃ c t, paragraph_body tr (JDict f)
              = Ok (tr ++ [Utterance (JStr unknown_speaker) c t]))
  ∧ (∀ tr f,
       wf_paragraph (JDict f) = true →
       existsb nonempty (word_texts (JDict f)) = true →
       f !! "start_time" = None →
       ∃ n c, paragraph_body tr (JDict f) = Ok (tr ++ [Utterance n c (JInt 0)]))
  ∧ (∀ tr f,
       f !! "sentences" = None →
       paragraph_body tr (JDict f)
       = paragraph_body tr (JDict (<[ "sentences" := JList [] ]> f)))
  ∧ (∀ parts g,
       g !! "words" = None →
       sentence_body parts (JDict g)
       = sentence_body parts (JDict (<[ "words" := JList [] ]> g)))
  ∧ (∀ parts g,
       g !! "text" = None →
       word_body parts (JDict g)
       = word_body parts (JDict (<[ "text" := JStr "" ]> g))).
Proof.
  repeat split.
  - intros [| | | | | |d]; try discriminate. unfold wf_document.
    destruct (d !! "minutes") as [[| | | | | |m]|] eqn:Hd; try discriminate.
    + destruct (m !! "paragraphs") as [[| | | | |ps|]|] eqn:Hm;
        try discriminate; intros Hwf.
      * rewrite (parse_transcript_paragraphs d m ps Hd Hm).
        rewrite (paragraphs_loop_wf ps [] Hwf). eauto.
      * exists []. apply extractor_without_paragraphs_is_empty_aux; eauto.
    + intros _. exists []. apply extractor_without_paragraphs_is_empty_aux; eauto.
  - intros tr f Hwf Hex Hsp. rewrite (paragraph_body_wf _ _ Hwf).
    unfold paragraph_utterances. rewrite Hex. do 2 eexists. do 3 f_equal.
    unfold speaker_of. destruct Hsp as [->|(s & -> & ->)]; reflexivity.
  - intros tr f Hwf Hex Hst. rewrite (paragraph_body_wf _ _ Hwf).
    unfold paragraph_utterances. rewrite Hex. do 2 eexists. do 3 f_equal.
    unfold start_of. by rewrite Hst.
  - intros tr f Hf. unfold paragraph_body, py_get.
    rewrite !lookup_insert_ne by done. rewrite lookup_insert_eq, Hf. reflexivity.
  - intros parts g Hg. unfold sentence_body, py_get.
    rewrite lookup_insert_eq, Hg. reflexivity.
  - intros parts g Hg. unfold word_body, py_get.
    rewrite lookup_insert_eq, Hg. reflexivity.
Qed.

Lemma extractor_defaults_for_absent_fields_witness :
  (∃ tr, parse_transcript (document sample_paragraphs) = Ok tr)
  ∧ (∃ c t, paragraph_body [] (JDict bare_paragraph)
            = Ok ([] ++ [Utterance (JStr unknown_speaker) c t]))
  ∧ (∃ n c, paragraph_body [] (JDict bare_paragraph)
            = Ok ([] ++ [Utterance n c (JInt 0)]))
  ∧ paragraph_body [] (JDict ∅)
    = paragraph_body [] (JDict (<[ "sentences" := JList [] ]> ∅))
  ∧ sentence_body [] (JDict ∅)
    = sentence_body [] (JDict (<[ "words" := JList [] ]> ∅))
  ∧ word_body [] (JDict ∅)
    = word_body [] (JDict (<[ "text" := JStr "" ]> ∅)).
Proof.
  destruct extractor_defaults_for_absent_fields
    as (Hdoc & Hspeaker & Htime & Hsentences & Hwords & Htext).
  refine (conj _ (conj _ (conj _ (conj _ (conj _ _))))).
  - apply (Hdoc (document sample_paragraphs)). vm_compute. reflexivity.
  - apply (Hspeaker [] bare_paragraph);
      [vm_compute; reflexivity | vm_compute; reflexivity
      | left; vm_compute; reflexivity].
  - apply (Htime [] bare_paragraph); vm_compute; reflexivity.
  - apply (Hsentences [] ∅). vm_compute. reflexivity.
  - apply (Hwords [] ∅). vm_compute. reflexivity.
  - apply (Htext [] ∅). vm_compute. reflexivity.
Defined.



(** The end-to-end scenario of the specification, extraction part: the
    words "Hi", "" and " there" give the content "Hi there". *)
Example extractor_scenario :
  parse_transcript
    (document [paragraph (JDict {[ "user_name" := JStr "A" ]})
                         ["Hi"; ""; " there"] 5])
  = Ok [Utterance (JStr "A") "Hi there" (JInt 5)].
Proof. vm_compute. reflexivity. Qed.

(** ** Stable insertion on a numeric key *)

Lemma Qlt_bool_true (a b : Q) : Qlt_bool a b = true → (a < b)%Q.
Proof.
  unfold Qlt_bool. intros H%negb_true_iff. apply Qnot_le_lt.
  intros Hle%Qle_bool_iff. congruence.
Qed.

Lemma Qlt_bool_false (a b : Q) : Qlt_bool a b = false → (b <= a)%Q.
Proof. unfold Qlt_bool. intros H%negb_false_iff. by apply Qle_bool_iff. Qed.

Lemma Qeq_bool_false_lt (a b : Q) : (a < b)%Q → Qeq_bool b a = false.
Proof.
  intros Hlt. destruct (Qeq_bool b a) eqn:E; [|done].
  apply Qeq_bool_iff in E. rewrite E in Hlt. by apply Qlt_irrefl in Hlt.
Qed.

Section StableSort.
Context {A : Type} (key : A → Q).

#[local] Abbreviation sorted := (StronglySorted (key_le key)).

Lemma sort_onto_cons (x : A) (l acc : list A) :
  sort_onto key acc (x :: l) = sort_onto key (insert key x acc) l.
Proof. reflexivity. Qed.

Lemma insert_perm (x : A) (l : list A) : insert key x l ≡ₚ x :: l.
Proof.
  induction l as [|y l IH]; simpl; [done|].
  destruct (Qlt_bool (key x) (key y)); [done|].
  rewrite IH. apply perm_swap.
Qed.

Lemma sort_onto_perm (l acc : list A) : sort_onto key acc l ≡ₚ acc ++ l.
Proof.
  revert acc. induction l as [|x l IH]; intros acc.
  - by rewrite app_nil_r.
  - rewrite sort_onto_cons, IH, insert_perm. apply Permutation_middle.
Qed.

Lemma insert_sorted (x : A) (l : list A) : sorted l → sorted (insert key x l).
Proof.
  induction 1 as [|y l Hl IH Hy]; simpl.
  - repeat constructor.
  - destruct (Qlt_bool (key x) (key y)) eqn:E.
    + apply Qlt_bool_true in E. constructor; [by constructor|].
      constructor; [by apply Qlt_le_weak|].
      eapply Forall_impl; [exact Hy|]. unfold key_le. intros z Hz.
      apply Qlt_le_weak. eapply Qlt_le_trans; eauto.
    + apply Qlt_bool_false in E. constructor; [done|].
      rewrite insert_perm. by constructor.
Qed.

Lemma sort_onto_sorted (l acc : list A) : sorted acc → sorted (sort_onto key acc l).
Proof.
  revert acc. induction l as [|x l IH]; intros acc Hacc; [done|].
  rewrite sort_onto_cons. apply IH. by apply insert_sorted.
Qed.

Lemma with_key_none (t : Q) (l : list A) :
  Forall (fun z => (t < key z)%Q) l → with_key key t l = [].
Proof.
  induction 1 as [|z l Hz _ IH]; simpl; [done|].
  by rewrite (Qeq_bool_false_lt _ _ Hz).
Qed.

Lemma with_key_app (t : Q) (l1 l2 : list A) :
  with_key key t (l1 ++ l2) = with_key key t l1 ++ with_key key t l2.
Proof. apply List.filter_app. Qed.

(** Insertion puts [x] behind the items of its own key. *)
Lemma with_key_insert (t : Q) (x : A) (l : list A) :
  sorted l →
  with_key key t (insert key x l) = with_key key t l ++ with_key key t [x].
Proof.
  induction 1 as [|y l Hl IH Hy]; [done|]. cbn [insert].
  destruct (Qlt_bool (key x) (key y)) eqn:E.
  - apply Qlt_bool_true in E.
    change (x :: y :: l) with ([x] ++ y :: l). rewrite with_key_app.
    destruct (Qeq_bool (key x) t) eqn:Ex.
    + apply Qeq_bool_iff in Ex.
      rewrite (with_key_none t (y :: l)); [by rewrite app_nil_r|].
      constructor; [by rewrite <- Ex|].
      eapply Forall_impl; [exact Hy|]. unfold key_le. intros z Hz.
      rewrite <- Ex. eapply Qlt_le_trans; eauto.
    + assert (with_key key t [x] = []) as ->.
      { unfold with_key. cbn [List.filter]. by rewrite Ex. }
      by rewrite app_nil_r.
  - unfold with_key in *. cbn [List.filter].
    destruct (Qeq_bool (key y) t); rewrite IH; reflexivity.
Qed.

Lemma with_key_sort_onto (t : Q) (l acc : list A) :
  sorted acc →
  with_key key t (sort_onto key acc l) = with_key key t acc ++ with_key key t l.
Proof.
  revert acc. induction l as [|x l IH]; intros acc Hacc.
  - by rewrite app_nil_r.
  - rewrite sort_onto_cons, IH by by apply insert_sorted.
    rewrite with_key_insert by done. rewrite <- app_assoc.
    by rewrite <- with_key_app.
Qed.

Lemma with_key_head (x : A) (l : list A) :
  with_key key (key x) (x :: l) = x :: with_key key (key x) l.
Proof.
  unfold with_key. cbn [List.filter].
  by rewrite (proj2 (Qeq_bool_iff _ _) (Qeq_refl (key x))).
Qed.

Lemma with_key_In (t : Q) (x : A) (l l' : list A) :
  with_key key t l = x :: l' → In x l.
Proof.
  intros H. assert (Hx : In x (with_key key t l)) by (rewrite H; by left).
  by apply List.filter_In in Hx as [? _].
Qed.

(** Two sorted lists that agree on every class of equal keys are equal. *)
Lemma sorted_unique (l1 l2 : list A) :
  sorted l1 → sorted l2 →
  (∀ t, with_key key t l1 = with_key key t l2) →
  l1 = l2.
Proof.
  intros H1. revert l2.
  induction H1 as [|a l1 Hl1 IH Ha]; intros l2 H2 Heq.
  - destruct l2 as [|b l2]; [done|].
    specialize (Heq (key b)). rewrite with_key_head in Heq. discriminate.
  - destruct H2 as [|b l2 Hl2 Hb].
    { specialize (Heq (key a)). rewrite with_key_head in Heq. discriminate. }
    assert (a = b) as <-.
    { pose proof (Heq (key a)) as Hka. pose proof (Heq (key b)) as Hkb.
      rewrite with_key_head in Hka. rewrite with_key_head in Hkb.
      unfold with_key in Hka at 2. unfold with_key in Hkb at 1.
      cbn [List.filter] in Hka, Hkb.
      destruct (Qeq_bool (key b) (key a)) eqn:Eba; [congruence|].
      destruct (Qeq_bool (key a) (key b)) eqn:Eab.
      { apply Qeq_bool_iff in Eab. apply Qeq_bool_neq in Eba.
        destruct Eba. by symmetry. }
      symmetry in Hka. apply with_key_In in Hka. apply with_key_In in Hkb.
      rewrite List.Forall_forall in Ha, Hb.
      apply Qeq_bool_neq in Eab. destruct Eab.
      apply Qle_antisym; [by apply Ha | by apply Hb]. }
    f_equal. apply IH; [done|]. intros t. specialize (Heq t).
    unfold with_key in *. cbn [List.filter] in Heq.
    destruct (Qeq_bool (key a) t); congruence.
Qed.

Lemma stable_sort_perm (l : list A) : stable_sort key l ≡ₚ l.
Proof. apply (sort_onto_perm l []). Qed.

Lemma stable_sort_sorted (l : list A) : sorted (stable_sort key l).
Proof. apply sort_onto_sorted. constructor. Qed.

Lemma with_key_stable_sort (t : Q) (l : list A) :
  with_key key t (stable_sort key l) = with_key key t l.
Proof. apply (with_key_sort_onto t l []). constructor. Qed.

Lemma stable_sort_sorted_id (l : list A) : sorted l → stable_sort key l = l.
Proof.
  intros Hl. apply sorted_unique; [apply stable_sort_sorted|done|].
  intros t. apply with_key_stable_sort.
Qed.

Lemma stable_sort_app_l (l1 l2 : list A) :
  stable_sort key (stable_sort key l1 ++ l2) = stable_sort key (l1 ++ l2).
Proof.
  apply sorted_unique; try apply stable_sort_sorted. intros t.
  by rewrite !with_key_stable_sort, !with_key_app, with_key_stable_sort.
Qed.

Lemma stable_sort_app_r (l1 l2 : list A) :
  stable_sort key (l1 ++ stable_sort key l2) = stable_sort key (l1 ++ l2).
Proof.
  apply sorted_unique; try apply stable_sort_sorted. intros t.
  by rewrite !with_key_stable_sort, !with_key_app, with_key_stable_sort.
Qed.

End StableSort.

(** Sorting commutes with a map that preserves the keys of the items. *)
Lemma insert_fmap {A B : Type} (kA : A → Q) (kB : B → Q) (f : A → B)
    (x : A) (l : list A) :
  kB (f x) = kA x →
  Forall (fun y => kB (f y) = kA y) l →
  insert kB (f x) (f <$> l) = f <$> insert kA x l.
Proof.
  intros Hx. induction 1 as [|y l Hy _ IH]; csimpl; [done|].
  rewrite Hx, Hy. destruct (Qlt_bool (kA x) (kA y)); csimpl; [done|].
  by rewrite IH.
Qed.

Lemma sort_onto_fmap {A B : Type} (kA : A → Q) (kB : B → Q) (f : A → B)
    (l acc : list A) :
  Forall (fun y => kB (f y) = kA y) acc →
  Forall (fun y => kB (f y) = kA y) l →
  sort_onto kB (f <$> acc) (f <$> l) = f <$> sort_onto kA acc l.
Proof.
  intros Hacc Hl. revert acc Hacc.
  induction Hl as [|x l Hx _ IH]; intros acc Hacc; [done|].
  rewrite fmap_cons, !sort_onto_cons, (insert_fmap kA kB f) by done.
  apply IH. rewrite insert_perm. by constructor.
Qed.

Lemma stable_sort_fmap {A B : Type} (kA : A → Q) (kB : B → Q) (f : A → B)
    (l : list A) :
  Forall (fun y => kB (f y) = kA y) l →
  stable_sort kB (f <$> l) = f <$> stable_sort kA l.
Proof. intros Hl. by apply (sort_onto_fmap kA kB f l []). Qed.

(** ** [list.sort] on numeric keys *)

Lemma py_lt_numbers (a b : json) :
  is_number a = true → is_number b = true →
  py_lt a b = Ok (Qlt_bool (time_of a) (time_of b)).
Proof. destruct a, b; try discriminate; reflexivity. Qed.

Section NumericKeys.
Context {A : Type}.

#[local] Abbreviation numeric :=
  (Forall (fun p : json * A => is_number p.1 = true)).
#[local] Abbreviation pair_time := (fun p : json * A => time_of p.1).

Lemma insort_numeric (x : json * A) (l : list (json * A)) :
  is_number x.1 = true → numeric l →
  insort x l = Ok (insert pair_time x l).
Proof.
  intros Hx. induction 1 as [|y l Hy _ IH]; [done|]. cbn [insort insert].
  rewrite (py_lt_numbers _ _ Hx Hy). cbn [bind].
  destruct (Qlt_bool (time_of x.1) (time_of y.1)); [done|]. by rewrite IH.
Qed.

Lemma insort_loop_numeric (l acc : list (json * A)) :
  numeric acc → numeric l →
  foldM (fun sorted x => insort x sorted) acc l
  = Ok (sort_onto pair_time acc l).
Proof.
  intros Hacc Hl. revert acc Hacc.
  induction Hl as [|x l Hx _ IH]; intros acc Hacc; [done|].
  cbn [foldM]. rewrite (insort_numeric _ _ Hx Hacc). cbn [bind].
  rewrite sort_onto_cons. apply IH. rewrite insert_perm. by constructor.
Qed.

(** When every key is computed and is a number, [list.sort] returns the
    stable insertion sort of the items on the numbers. *)
Lemma list_sort_numeric (key : A → result json) (k : A → json) (l : list A) :
  Forall (fun x => key x = Ok (k x)) l →
  Forall (fun x => is_number (k x) = true) l →
  list_sort key l = Ok (stable_sort (fun x => time_of (k x)) l).
Proof.
  intros Hkey Hnum. unfold list_sort.
  rewrite (mapM_total _ (fun x => (k x, x))).
  2:{ eapply Forall_impl; [exact Hkey|]. intros x ->. reflexivity. }
  cbn [bind]. rewrite insort_loop_numeric.
  - cbn [bind]. f_equal.
    change (sort_onto pair_time [] ((λ x, (k x, x)) <$> l))
      with (stable_sort pair_time ((λ x, (k x, x)) <$> l)).
    rewrite (stable_sort_fmap (fun x => time_of (k x))).
    + rewrite <- list_fmap_compose. apply list_fmap_id.
    + by apply Forall_true.
  - constructor.
  - by apply Forall_fmap.
Qed.

End NumericKeys.

(** ** The merger on numeric start times *)

Lemma extend_loop (transcripts : list (list utterance)) (merged : list utterance) :
  fold_left (fun merged transcript => merged ++ transcript) transcripts merged
  = merged ++ concat transcripts.
Proof.
  revert merged. induction transcripts as [|t ts IH]; intros merged; simpl.
  - by rewrite app_nil_r.
  - by rewrite IH, app_assoc.
Qed.

Lemma timed_Forall (l : list utterance) :
  timed l = true ↔ Forall (fun x => is_number (start_time x) = true) l.
Proof. unfold timed. rewrite forallb_forall, List.Forall_forall. done. Qed.

Lemma all_timed_concat (ts : list (list utterance)) :
  all_timed ts = true → timed (concat ts) = true.
Proof.
  induction ts as [|t ts IH]; simpl; [done|]. intros [Ht Hts]%andb_prop.
  unfold timed. rewrite forallb_app. apply andb_true_intro. split; [done|].
  by apply IH.
Qed.

Lemma merge_transcripts_timed (ts : list (list utterance)) :
  all_timed ts = true →
  merge_transcripts ts = Ok (stable_sort utime (concat ts)).
Proof.
  intros Hts. unfold merge_transcripts. rewrite extend_loop. cbn [app].
  apply (list_sort_numeric _ start_time).
  - by apply Forall_true.
  - by apply timed_Forall, all_timed_concat.
Qed.

Lemma timed_perm (l l' : list utterance) : l ≡ₚ l' → timed l = true → timed l' = true.
Proof. intros Hp. rewrite !timed_Forall. by rewrite Hp. Qed.

Lemma timed_stable_sort (l : list utterance) :
  timed l = true → timed (stable_sort utime l) = true.
Proof. apply timed_perm. symmetry. apply stable_sort_perm. Qed.

Lemma length_concat_sum {A : Type} (ls : list (list A)) :
  length (concat ls) = sum_list (length <$> ls).
Proof.
  induction ls as [|l ls IH]; csimpl; [done|]. by rewrite length_app, IH.
Qed.

(** ** The merger: claims *)

(** C4.  When every start time is a number, [merge_transcripts] returns the
    concatenation of its inputs, in the order given, sorted stably on
    [start_time] alone: the result holds the records of the concatenation,
    it is nondecreasing in [start_time], and for every time [t] the records
    of that time come in the order they have in the concatenation. *)
Theorem merge_is_stable_sort_of_concatenation (ts : list (list utterance)) :
  all_timed ts = true →
  ∃ r, merge_transcripts ts = Ok r
       ∧ r ≡ₚ concat ts
       ∧ time_sorted r
       ∧ ∀ t, at_time t r = at_time t (concat ts).
Proof.
  intros Hts. exists (stable_sort utime (concat ts)). split; [|split; [|split]].
  - by apply merge_transcripts_timed.
  - apply stable_sort_perm.
  - apply (stable_sort_sorted utime).
  - intros t. apply (with_key_stable_sort utime).
Qed.

Lemma merge_is_stable_sort_of_concatenation_witness :
  ∃ r, merge_transcripts
         [[said "a" 5; said "b" 2; said "c" 5]; [said "d" 5; said "e" 1]] = Ok r
       ∧ r ≡ₚ concat [[said "a" 5; said "b" 2; said "c" 5];
                      [said "d" 5; said "e" 1]]
       ∧ time_sorted r
       ∧ ∀ t, at_time t r
              = at_time t (concat [[said "a" 5; said "b" 2; said "c" 5];
                                   [said "d" 5; said "e" 1]]).
Proof.
  apply (merge_is_stable_sort_of_concatenation
           [[said "a" 5; said "b" 2; said "c" 5]; [said "d" 5; said "e" 1]]).
  vm_compute. reflexivity.
Defined.

(** The merge of the specification's scenario and of a tie between two
    documents. *)
Example merge_scenario :
  merge_transcripts
    [[said "a" 5; said "b" 2; said "c" 5]; [said "d" 5; said "e" 1]]
  = Ok [said "e" 1; said "b" 2; said "a" 5; said "c" 5; said "d" 5].
Proof. vm_compute. reflexivity. Qed.

(** C10.  When every start time is a number, the result of
    [merge_transcripts] has as many records as the inputs together and is a
    permutation of their concatenation. *)
Theorem merge_keeps_every_record (ts : list (list utterance)) :
  all_timed ts = true →
  ∃ r, merge_transcripts ts = Ok r
       ∧ length r = sum_list (length <$> ts)
       ∧ r ≡ₚ concat ts.
Proof.
  intros Hts. exists (stable_sort utime (concat ts)).
  pose proof (stable_sort_perm utime (concat ts)) as Hp. split; [|split].
  - by apply merge_transcripts_timed.
  - by rewrite Hp, length_concat_sum.
  - exact Hp.
Qed.

Lemma merge_keeps_every_record_witness :
  ∃ r, merge_transcripts
         [[said "a" 5; said "b" 2; said "c" 5]; [said "d" 5; said "e" 1]] = Ok r
       ∧ length r
         = sum_list (length <$> [[said "a" 5; said "b" 2; said "c" 5];
                                 [said "d" 5; said "e" 1]])
       ∧ r ≡ₚ concat [[said "a" 5; said "b" 2; said "c" 5];
                      [said "d" 5; said "e" 1]].
Proof.
  apply (merge_keeps_every_record
           [[said "a" 5; said "b" 2; said "c" 5]; [said "d" 5; said "e" 1]]).
  vm_compute. reflexivity.
Defined.

(** C5.  Merging is associative in the grouping of its inputs: merging
    [A] and [B] first, or [B] and [C] first, gives the merge of the three.
    It is not commutative: two records of one start time come out in the
    order of the inputs. *)
Theorem merge_associative_not_commutative :
  (∀ A B C,
     all_timed [A; B; C] = true →
     (ab <- merge_transcripts [A; B] ;; merge_transcripts [ab; C])
     = merge_transcripts [A; B; C]
     ∧ (bc <- merge_transcripts [B; C] ;; merge_transcripts [A; bc])
       = merge_transcripts [A; B; C]
     ∧ ∃ r, merge_transcripts [A; B; C] = Ok r)
  ∧ (∃ A B,
       all_timed [A; B] = true
       ∧ merge_transcripts [A; B] ≠ merge_transcripts [B; A]).
Proof.
  split.
  - intros A B C Hts.
    assert (timed A = true ∧ timed B = true ∧ timed C = true) as (HA & HB & HC).
    { simpl in Hts. apply andb_prop in Hts as [? Hts].
      apply andb_prop in Hts as [? Hts]. apply andb_prop in Hts as [? _].
      auto. }
    assert (Hall : ∀ X Y, timed X = true → timed Y = true →
                          all_timed [X; Y] = true).
    { intros X Y HX HY. simpl. by rewrite HX, HY. }
    assert (HAB : timed (stable_sort utime (concat [A; B])) = true).
    { apply timed_stable_sort, all_timed_concat. auto. }
    assert (HBC : timed (stable_sort utime (concat [B; C])) = true).
    { apply timed_stable_sort, all_timed_concat. auto. }
    rewrite (merge_transcripts_timed [A; B; C] Hts).
    rewrite (merge_transcripts_timed [A; B]) by auto.
    rewrite (merge_transcripts_timed [B; C]) by auto.
    cbn [bind]. rewrite !merge_transcripts_timed by auto.
    cbn [concat]. rewrite !app_nil_r.
    rewrite stable_sort_app_l, stable_sort_app_r.
    rewrite <- app_assoc. eauto.
  - exists [said "a" 0], [said "b" 0]. split; [reflexivity|].
    vm_compute. discriminate.
Qed.

Lemma merge_associative_not_commutative_witness :
  (ab <- merge_transcripts [[said "a" 5; said "b" 2]; [said "c" 5]] ;;
   merge_transcripts [ab; [said "d" 2; said "e" 9]])
  = merge_transcripts [[said "a" 5; said "b" 2]; [said "c" 5];
                       [said "d" 2; said "e" 9]]
  ∧ (bc <- merge_transcripts [[said "c" 5]; [said "d" 2; said "e" 9]] ;;
     merge_transcripts [[said "a" 5; said "b" 2]; bc])
    = merge_transcripts [[said "a" 5; said "b" 2]; [said "c" 5];
                         [said "d" 2; said "e" 9]]
  ∧ ∃ r, merge_transcripts [[said "a" 5; said "b" 2]; [said "c" 5];
                            [said "d" 2; said "e" 9]] = Ok r.
Proof.
  apply (proj1 merge_associative_not_commutative
           [said "a" 5; said "b" 2] [said "c" 5] [said "d" 2; said "e" 9]).
  vm_compute. reflexivity.
Defined.

(** C2, as the code has it.  For a transcript [A] whose start times are
    numbers, [merge_transcripts [A]] is [A] sorted stably on [start_time]:
    a permutation of [A], nondecreasing in [start_time], the records of
    every time in the order they have in [A].  It is [A] itself exactly
    when [A] is already nondecreasing in [start_time], and then rendering
    the merge and rendering [A] give the same text.  [main], given one
    transcript, hands [A] itself to the formatter, whatever its order. *)
Theorem merge_of_one_transcript (A : list utterance) :
  timed A = true →
  ∃ r, merge_transcripts [A] = Ok r
       ∧ r ≡ₚ A
       ∧ time_sorted r
       ∧ (∀ t, at_time t r = at_time t A)
       ∧ (r = A ↔ time_sorted A)
       ∧ (time_sorted A →
          ∀ py_str, format_to_markdown py_str r = format_to_markdown py_str A)
       ∧ main_merged_transcript [A] = Ok A.
Proof.
  intros HA. exists (stable_sort utime A).
  assert (Hid : stable_sort utime A = A ↔ time_sorted A).
  { split.
    - intros H. rewrite <- H. apply (stable_sort_sorted utime).
    - apply stable_sort_sorted_id. }
  split; [|split; [|split; [|split; [|split; [|split]]]]].
  - rewrite (merge_transcripts_timed [A]) by (simpl; by rewrite HA).
    cbn [concat]. by rewrite app_nil_r.
  - apply stable_sort_perm.
  - apply (stable_sort_sorted utime).
  - intros t. apply (with_key_stable_sort utime).
  - exact Hid.
  - intros HS py_str. by rewrite (proj2 Hid HS).
  - reflexivity.
Qed.

Lemma merge_of_one_transcript_witness :
  ∃ r, merge_transcripts [late_first] = Ok r
       ∧ r ≡ₚ late_first
       ∧ time_sorted r
       ∧ (∀ t, at_time t r = at_time t late_first)
       ∧ (r = late_first ↔ time_sorted late_first)
       ∧ (time_sorted late_first →
          ∀ py_str,
            format_to_markdown py_str r = format_to_markdown py_str late_first)
       ∧ main_merged_transcript [late_first] = Ok late_first.
Proof. apply (merge_of_one_transcript late_first). vm_compute. reflexivity. Defined.

(** C2 as stated fails: merging the single transcript [late_first] reorders
    it, while [main] leaves it as it is, and the two renderings differ. *)
Lemma merge_of_one_transcript_reorders :
  merge_transcripts [late_first] = Ok in_order
  ∧ merge_transcripts [late_first] ≠ Ok late_first
  ∧ main_merged_transcript [late_first] = Ok late_first
  ∧ format_to_markdown no_str in_order ≠ format_to_markdown no_str late_first.
Proof. repeat split; vm_compute; (reflexivity || discriminate). Qed.

(** ** The formatter: claims *)

(** C1, as the code has it.  The single record of Alice is rendered as its
    line followed by one line feed. *)
Theorem format_single_record (py_str : json → string) :
  format_to_markdown py_str [alice] = ("**[Alice]**: Hello" ++ nl)%string.
Proof. reflexivity. Qed.

(** C1 as stated fails: the rendering does not end in two line feeds. *)
Lemma format_single_record_no_blank_line :
  format_to_markdown no_str [alice] ≠ ("**[Alice]**: Hello" ++ nl ++ nl)%string.
Proof. vm_compute. discriminate. Qed.

(** The blank line stands between two entries, not behind the last. *)
Example format_two_records (py_str : json → string) :
  format_to_markdown py_str [alice; said "Bob" 1]
  = ("**[Alice]**: Hello" ++ nl ++ nl ++ "**[Bob]**: Bob" ++ nl)%string.
Proof. reflexivity. Qed.

Example format_empty (py_str : json → string) :
  format_to_markdown py_str [] = "".
Proof. reflexivity. Qed.

(** ** The merger on a store *)

Lemma bind_Ok_inv {A B : Type} (m : result A) (k : A → result B) (b : B) :
  (x <- m ;; k x) = Ok b → ∃ a, m = Ok a ∧ k a = Ok b.
Proof. destruct m as [a|e]; [eauto|discriminate]. Qed.

Lemma mapM_Ok_Forall2 {A B : Type} (f : A → result B) (l : list A) (r : list B) :
  mapM f l = Ok r ↔ Forall2 (fun x y => f x = Ok y) l r.
Proof.
  split.
  - revert r. induction l as [|x l IH]; intros r; cbn [mapM].
    + intros [= <-]. constructor.
    + intros (y & Hy & (ys & Hys & [= <-])%bind_Ok_inv)%bind_Ok_inv.
      constructor; auto.
  - induction 1 as [|x y l r Hxy _ IH]; cbn [mapM]; [done|].
    by rewrite Hxy, IH.
Qed.

Lemma mapM_app {A B : Type} (f : A → result B) (l1 l2 : list A)
    (r1 r2 : list B) :
  mapM f l1 = Ok r1 → mapM f l2 = Ok r2 → mapM f (l1 ++ l2) = Ok (r1 ++ r2).
Proof.
  rewrite !mapM_Ok_Forall2. apply Forall2_app.
Qed.

Lemma mapM_concat {A B : Type} (f : A → result B)
    (ls : list (list A)) (rs : list (list B)) :
  Forall2 (fun l r => mapM f l = Ok r) ls rs →
  mapM f (concat ls) = Ok (concat rs).
Proof.
  induction 1 as [|l r ls rs Hl _ IH]; cbn [concat]; [done|].
  by apply mapM_app.
Qed.

Section StoreFacts.
Context (h : gmap positive Store.obj) (m : positive).
Hypothesis m_fresh : h !! m = None.

Lemma get_list_allocated (l : positive) (items : list positive) :
  Store.get_list h l = Ok items → l ≠ m.
Proof. unfold Store.get_list. intros H ->. by rewrite m_fresh in H. Qed.

Lemma get_record_allocated (x : positive) (r : utterance) :
  Store.get_record h x = Ok r → x ≠ m.
Proof. unfold Store.get_record. intros H ->. by rewrite m_fresh in H. Qed.

Lemma get_list_frame (o : Store.obj) (l : positive) (items : list positive) :
  Store.get_list h l = Ok items → Store.get_list (<[m := o]> h) l = Ok items.
Proof.
  intros H. pose proof (get_list_allocated _ _ H).
  unfold Store.get_list in *. by rewrite lookup_insert_ne.
Qed.

Lemma get_record_frame (o : Store.obj) (x : positive) (r : utterance) :
  Store.get_record h x = Ok r → Store.get_record (<[m := o]> h) x = Ok r.
Proof.
  intros H. pose proof (get_record_allocated _ _ H).
  unfold Store.get_record in *. by rewrite lookup_insert_ne.
Qed.

Lemma get_start_time_frame (o : Store.obj) (x : positive) (r : utterance) :
  Store.get_record h x = Ok r →
  Store.get_start_time (<[m := o]> h) x = Ok (start_time r).
Proof.
  intros H. pose proof (get_record_allocated _ _ H).
  unfold Store.get_record, Store.get_start_time in *.
  rewrite lookup_insert_ne by done.
  destruct (h !! x) as [[|]|]; by simplify_eq.
Qed.

Lemma get_list_written (items : list positive) :
  Store.get_list (<[m := Store.OList items]> h) m = Ok items.
Proof. unfold Store.get_list. by rewrite lookup_insert_eq. Qed.

Lemma read_transcript_frame (o : Store.obj) (l : positive) (us : list utterance) :
  Store.read_transcript h l = Ok us →
  Store.read_transcript (<[m := o]> h) l = Ok us.
Proof.
  unfold Store.read_transcript.
  intros (items & Hitems & Hus)%bind_Ok_inv.
  rewrite (get_list_frame _ _ _ Hitems). cbn [bind].
  apply mapM_Ok_Forall2. apply mapM_Ok_Forall2 in Hus.
  eapply Forall2_impl; [exact Hus|]. intros x r. apply get_record_frame.
Qed.

Lemma read_transcripts_frame (o : Store.obj) (l : positive)
    (ts : list (list utterance)) :
  Store.read_transcripts h l = Ok ts →
  Store.read_transcripts (<[m := o]> h) l = Ok ts.
Proof.
  unfold Store.read_transcripts.
  intros (inputs & Hinputs & Hts)%bind_Ok_inv.
  rewrite (get_list_frame _ _ _ Hinputs). cbn [bind].
  apply mapM_Ok_Forall2. apply mapM_Ok_Forall2 in Hts.
  eapply Forall2_impl; [exact Hts|]. intros x r. apply read_transcript_frame.
Qed.

(** The loop of [extend] appends the items of every input to the list at
    [m] and writes nowhere else. *)
Lemma extend_loop_store (inputs : list positive) (itemss : list (list positive))
    (acc : list positive) :
  Forall2 (fun t items => Store.get_list h t = Ok items) inputs itemss →
  foldM (Store.extend m) (<[m := Store.OList acc]> h) inputs
  = Ok (<[m := Store.OList (acc ++ concat itemss)]> h).
Proof.
  intros H. revert acc.
  induction H as [|t items inputs itemss Ht _ IH]; intros acc; cbn [foldM concat].
  - by rewrite app_nil_r.
  - unfold Store.extend at 1. rewrite (get_list_frame _ _ _ Ht). cbn [bind].
    rewrite get_list_written. cbn [bind]. rewrite insert_insert_eq.
    rewrite IH. by rewrite app_assoc.
Qed.

End StoreFacts.

(** What the store holds for the inputs, list by list. *)
Lemma read_transcripts_items (h : gmap positive Store.obj)
    (inputs : list positive) (ts : list (list utterance)) :
  Forall2 (fun t us => Store.read_transcript h t = Ok us) inputs ts →
  ∃ itemss,
    Forall2 (fun t items => Store.get_list h t = Ok items) inputs itemss
    ∧ Forall2 (fun items us => mapM (Store.get_record h) items = Ok us) itemss ts.
Proof.
  induction 1 as [|t us inputs ts Ht _ (itemss & IH1 & IH2)].
  - exists []. split; constructor.
  - unfold Store.read_transcript in Ht.
    apply bind_Ok_inv in Ht as (items & Hitems & Hus).
    exists (items :: itemss). split; constructor; auto.
Qed.

(** C8.  On a store where [transcripts] refers to a list of lists of
    records with numeric start times, [merge_transcripts] returns a
    reference that was not allocated before, the store is unchanged at every
    other reference, so the inputs read as before, and the new list holds
    the merge of the inputs. *)
Theorem merge_leaves_inputs_unchanged
    (h : gmap positive Store.obj) (transcripts : positive)
    (ts : list (list utterance)) :
  Store.read_transcripts h transcripts = Ok ts →
  all_timed ts = true →
  ∃ merged h',
    Store.merge_transcripts transcripts h = Ok (merged, h')
    ∧ h !! merged = None
    ∧ (∀ l, l ≠ merged → h' !! l = h !! l)
    ∧ Store.read_transcripts h' transcripts = Ok ts
    ∧ ∃ r, merge_transcripts ts = Ok r
           ∧ Store.read_transcript h' merged = Ok r.
Proof.
  intros Hread Htimed.
  set (m := fresh (dom h)).
  assert (Hm : h !! m = None) by apply not_elem_of_dom, is_fresh.
  pose proof Hread as Hread'. unfold Store.read_transcripts in Hread'.
  apply bind_Ok_inv in Hread' as (inputs & Hinputs & Hts).
  apply mapM_Ok_Forall2, read_transcripts_items in Hts
    as (itemss & Hitems & Hrecs).
  pose proof (mapM_concat _ _ _ Hrecs) as Hall.
  set (current := concat itemss) in *.
  set (record_of := fun x =>
         match Store.get_record h x with
         | Ok r => r
         | Raise _ => Utterance JNull "" JNull
         end).
  apply mapM_Ok_Forall2 in Hall.
  assert (Hrec : Forall (fun x => Store.get_record h x = Ok (record_of x)) current).
  { clear -Hall. induction Hall as [|x r l rs Hx _ IH]; constructor; [|done].
    unfold record_of. by rewrite Hx. }
  assert (Hmap : record_of <$> current = concat ts).
  { clear -Hall. induction Hall as [|x r l rs Hx _ IH]; csimpl; [done|].
    rewrite IH. unfold record_of at 1. by rewrite Hx. }
  set (sorted := stable_sort (fun x => time_of (start_time (record_of x))) current).
  exists m, (<[m := Store.OList sorted]> h). split; [|split; [|split; [|split]]].
  - unfold Store.merge_transcripts. fold m.
    rewrite (get_list_frame h m Hm _ _ _ Hinputs). cbn [bind].
    rewrite (extend_loop_store h m Hm inputs itemss [] Hitems). cbn [bind app].
    rewrite get_list_written. cbn [bind]. fold current.
    rewrite (list_sort_numeric _ (fun x => start_time (record_of x))).
    + cbn [bind]. by rewrite insert_insert_eq.
    + eapply Forall_impl; [exact Hrec|]. intros x Hx.
      by apply get_start_time_frame.
    + apply all_timed_concat, timed_Forall in Htimed.
      rewrite <- Hmap in Htimed. by apply Forall_fmap in Htimed.
  - done.
  - intros l Hl. by rewrite lookup_insert_ne.
  - by apply read_transcripts_frame.
  - exists (stable_sort utime (concat ts)).
    split; [by apply merge_transcripts_timed|].
    unfold Store.read_transcript. rewrite get_list_written. cbn [bind].
    rewrite (mapM_total _ record_of).
    + f_equal. rewrite <- Hmap. symmetry.
      apply (stable_sort_fmap _ utime record_of). by apply Forall_true.
    + unfold sorted. rewrite stable_sort_perm.
      eapply Forall_impl; [exact Hrec|]. intros x Hx.
      by apply get_record_frame.
Qed.

Lemma merge_leaves_inputs_unchanged_witness :
  ∃ merged h',
    Store.merge_transcripts 1%positive sample_store = Ok (merged, h')
    ∧ sample_store !! merged = None
    ∧ (∀ l, l ≠ merged → h' !! l = sample_store !! l)
    ∧ Store.read_transcripts h' 1%positive
      = Ok [[said "a" 5; said "b" 2]; [said "c" 3]]
    ∧ ∃ r, merge_transcripts [[said "a" 5; said "b" 2]; [said "c" 3]] = Ok r
           ∧ Store.read_transcript h' merged = Ok r.
Proof.
  apply (merge_leaves_inputs_unchanged sample_store 1%positive
           [[said "a" 5; said "b" 2]; [said "c" 3]]);
    vm_compute; reflexivity.
Defined.

(** On the sample store the merged list is allocated at 7 and refers to the
    records of the inputs, which stay where they were. *)
Example merge_sample_store :
  (r <- Store.merge_transcripts 1%positive sample_store ;;
   Ok (r.1, r.2 !! 7%positive, r.2 !! 2%positive, r.2 !! 3%positive))
  = Ok (7%positive,
        Some (Store.OList [5%positive; 6%positive; 4%positive]),
        Some (Store.OList [4%positive; 5%positive]),
        Some (Store.OList [6%positive])).
Proof. vm_compute. reflexivity. Qed.


(** * Further properties of the code *)

(** ** Loops *)

Lemma foldM_app {A S : Type} (body : S → A → result S) (s : S) (l1 l2 : list A) :
  foldM body s (l1 ++ l2) = s' <- foldM body s l1 ;; foldM body s' l2.
Proof.
  revert s. induction l1 as [|x l1 IH]; intros s; cbn [foldM app bind]; [done|].
  destruct (body s x); cbn [bind]; auto.
Qed.

(** What every step of a loop keeps, the loop keeps. *)
Lemma foldM_invariant {A S : Type} (P : S → Prop) (body : S → A → result S)
    (l : list A) (s s' : S) :
  (∀ s x s', body s x = Ok s' → P s → P s') →
  foldM body s l = Ok s' → P s → P s'.
Proof.
  intros Hbody. revert s. induction l as [|x l IH]; intros s; cbn [foldM].
  - by intros [= <-].
  - intros (s1 & Hs1 & Hs')%bind_Ok_inv Hs. eauto.
Qed.

Lemma py_for_invariant {S : Type} (P : S → Prop) (body : S → json → result S)
    (v : json) (s s' : S) :
  (∀ s x s', body s x = Ok s' → P s → P s') →
  py_for v body s = Ok s' → P s → P s'.
Proof.
  intros Hbody. unfold py_for. intros (items & _ & Hs')%bind_Ok_inv.
  by apply (foldM_invariant P body items s s').
Qed.

(** ** The extractor on any document *)

Lemma word_body_truthy (parts : list json) (w : json) (parts' : list json) :
  word_body parts w = Ok parts' →
  Forall (fun v => py_truthy v = true) parts →
  Forall (fun v => py_truthy v = true) parts'.
Proof.
  unfold word_body. intros (text & _ & [= <-])%bind_Ok_inv Hparts.
  destruct (py_truthy text) eqn:E; [|done].
  apply Forall_app. split; [done|]. by constructor.
Qed.

Lemma sentence_body_truthy (parts : list json) (s : json) (parts' : list json) :
  sentence_body parts s = Ok parts' →
  Forall (fun v => py_truthy v = true) parts →
  Forall (fun v => py_truthy v = true) parts'.
Proof.
  unfold sentence_body. intros (words & _ & H)%bind_Ok_inv.
  revert H. apply py_for_invariant. apply word_body_truthy.
Qed.

Lemma py_join_truthy (parts : list json) (c : string) :
  parts ≠ [] →
  Forall (fun v => py_truthy v = true) parts →
  py_join parts = Ok c → c ≠ "".
Proof.
  destruct parts as [|[| | | |s| |] parts]; try done; try discriminate.
  intros _ Hparts. apply Forall_cons in Hparts as [Hs _].
  cbn [py_join]. intros (rest & _ & [= <-])%bind_Ok_inv.
  destruct s; [discriminate|]. discriminate.
Qed.

Lemma paragraph_body_content (tr : list utterance) (p : json)
    (tr' : list utterance) :
  paragraph_body tr p = Ok tr' →
  Forall (fun x => content x ≠ "") tr →
  Forall (fun x => content x ≠ "") tr'.
Proof.
  unfold paragraph_body.
  intros (speaker & _ & (name & _ & (sentences & _ &
            (parts & Hparts & H)%bind_Ok_inv)%bind_Ok_inv)%bind_Ok_inv)%bind_Ok_inv.
  intros Htr.
  assert (Htruthy : Forall (fun v => py_truthy v = true) parts).
  { apply (py_for_invariant _ _ _ _ _ sentence_body_truthy Hparts).
    constructor. }
  destruct (py_truthy (JList parts)) eqn:E.
  - apply bind_Ok_inv in H as (c & Hc & (t & _ & [= <-])%bind_Ok_inv).
    apply Forall_app. split; [done|]. constructor; [|constructor].
    cbn [content]. eapply py_join_truthy; [|done|done].
    by destruct parts.
  - by injection H as <-.
Qed.

(** X1.  Whatever the document, an utterance the extractor returns has a
    content that is not empty. *)
Theorem extractor_content_never_empty (data : json) (tr : list utterance) :
  parse_transcript data = Ok tr →
  Forall (fun x => content x ≠ "") tr.
Proof.
  unfold parse_transcript.
  intros (has_minutes & _ & (has_paragraphs & _ & H)%bind_Ok_inv)%bind_Ok_inv.
  destruct has_paragraphs.
  - apply bind_Ok_inv in H as (minutes & _ & (ps & _ & H)%bind_Ok_inv).
    apply (py_for_invariant _ _ _ _ _ paragraph_body_content H).
    constructor.
  - injection H as <-. constructor.
Qed.

Lemma extractor_content_never_empty_witness :
  Forall (fun x => content x ≠ "") [Utterance (JStr "Al") "Hi there" (JInt 5)].
Proof.
  apply (extractor_content_never_empty (document sample_paragraphs)).
  vm_compute. reflexivity.
Defined.

(** A paragraph only appends to the transcript. *)
Lemma paragraph_body_appends (tr : list utterance) (p : json) :
  paragraph_body tr p = r <- paragraph_body [] p ;; Ok (tr ++ r).
Proof.
  unfold paragraph_body.
  destruct (py_get p "speaker" (JDict ∅)) as [speaker|]; [|done]. cbn [bind].
  destruct (py_get speaker "user_name" (JStr unknown_speaker)); [|done].
  cbn [bind].
  destruct (py_get p "sentences" (JList [])) as [sentences|]; [|done].
  cbn [bind].
  destruct (py_for sentences sentence_body []) as [parts|]; [|done]. cbn [bind].
  destruct (py_truthy (JList parts)).
  - destruct (py_join parts); [|done]. cbn [bind].
    destruct (py_get p "start_time" (JInt 0)); [|done]. reflexivity.
  - cbn [bind]. by rewrite app_nil_r.
Qed.

Lemma paragraphs_loop_appends (ps : list json) (tr : list utterance) :
  foldM paragraph_body tr ps = r <- foldM paragraph_body [] ps ;; Ok (tr ++ r).
Proof.
  revert tr. induction ps as [|p ps IH]; intros tr; cbn [foldM bind].
  - by rewrite app_nil_r.
  - rewrite (paragraph_body_appends tr p).
    destruct (paragraph_body [] p) as [r|]; [|done]. cbn [bind app].
    rewrite (IH (tr ++ r)), (IH r).
    destruct (foldM paragraph_body [] ps); [|done]. cbn [bind].
    by rewrite app_assoc.
Qed.

(** X2.  Extraction distributes over the sequence of paragraphs: a document
    whose paragraphs are [ps1] followed by [ps2] gives the utterances of
    [ps1] followed by those of [ps2], and raises what the first of the two
    that raises does. *)
Theorem extractor_distributes_over_paragraphs
    (d m : gmap string json) (ps1 ps2 : list json) :
  d !! "minutes" = Some (JDict m) →
  m !! "paragraphs" = Some (JList (ps1 ++ ps2)) →
  parse_transcript (JDict d)
  = r1 <- parse_transcript (document ps1) ;;
    r2 <- parse_transcript (document ps2) ;;
    Ok (r1 ++ r2).
Proof.
  intros Hd Hm. rewrite (parse_transcript_paragraphs d m _ Hd Hm).
  unfold document.
  rewrite (parse_transcript_paragraphs
             {[ "minutes" := JDict {[ "paragraphs" := JList ps1 ]} ]}
             {[ "paragraphs" := JList ps1 ]} ps1) by apply lookup_singleton_eq.
  rewrite (parse_transcript_paragraphs
             {[ "minutes" := JDict {[ "paragraphs" := JList ps2 ]} ]}
             {[ "paragraphs" := JList ps2 ]} ps2) by apply lookup_singleton_eq.
  rewrite foldM_app.
  destruct (foldM paragraph_body [] ps1) as [r1|]; [|done]. cbn [bind].
  apply paragraphs_loop_appends.
Qed.

Lemma extractor_distributes_over_paragraphs_witness :
  parse_transcript (document sample_paragraphs)
  = r1 <- parse_transcript (document (take 1 sample_paragraphs)) ;;
    r2 <- parse_transcript (document (drop 1 sample_paragraphs)) ;;
    Ok (r1 ++ r2).
Proof.
  apply (extractor_distributes_over_paragraphs
           {[ "minutes" := JDict {[ "paragraphs" := JList sample_paragraphs ]} ]}
           {[ "paragraphs" := JList sample_paragraphs ]}
           (take 1 sample_paragraphs) (drop 1 sample_paragraphs));
    vm_compute; reflexivity.
Defined.

(** X3.  A value that is neither a container nor a string cannot be
    searched for a key: the extractor raises [TypeError] when the document
    itself, its [minutes] or its [minutes.paragraphs] is [null], a boolean
    or a number. *)
Theorem extractor_scalar_raises (v : json) :
  is_scalar v = true →
  parse_transcript v = Raise TypeError
  ∧ (∀ d, d !! "minutes" = Some v →
          parse_transcript (JDict d) = Raise TypeError)
  ∧ (∀ d m, d !! "minutes" = Some (JDict m) →
            m !! "paragraphs" = Some v →
            parse_transcript (JDict d) = Raise TypeError).
Proof.
  intros Hv. split; [|split].
  - by destruct v.
  - intros d Hd. unfold parse_transcript, py_in at 1, py_getitem.
    rewrite Hd, bool_decide_eq_true_2 by eauto. cbn [bind]. by destruct v.
  - intros d m Hd Hm.
    unfold parse_transcript, py_in, py_getitem, py_for.
    rewrite Hd, bool_decide_eq_true_2 by eauto. cbn [bind].
    rewrite Hm, bool_decide_eq_true_2 by eauto. cbn [bind]. by destruct v.
Qed.

Lemma extractor_scalar_raises_witness :
  parse_transcript JNull = Raise TypeError
  ∧ parse_transcript (JDict {[ "minutes" := JNull ]}) = Raise TypeError
  ∧ parse_transcript
      (JDict {[ "minutes" := JDict {[ "paragraphs" := JNull ]} ]})
    = Raise TypeError.
Proof.
  destruct (extractor_scalar_raises JNull eq_refl) as (H1 & H2 & H3).
  refine (conj H1 (conj _ _)).
  - apply (H2 {[ "minutes" := JNull ]}). vm_compute. reflexivity.
  - apply (H3 {[ "minutes" := JDict {[ "paragraphs" := JNull ]} ]}
              {[ "paragraphs" := JNull ]}); vm_compute; reflexivity.
Defined.

(** X4.  One paragraph that is not a mapping loses the whole document: when
    the paragraphs before it are well formed, the extractor raises
    [AttributeError] and returns none of their utterances. *)
Theorem extractor_bad_paragraph_raises
    (d m : gmap string json) (before after : list json) (bad : json) :
  d !! "minutes" = Some (JDict m) →
  m !! "paragraphs" = Some (JList (before ++ bad :: after)) →
  forallb wf_paragraph before = true →
  is_dict bad = false →
  parse_transcript (JDict d) = Raise AttributeError.
Proof.
  intros Hd Hm Hwf Hbad. rewrite (parse_transcript_paragraphs d m _ Hd Hm).
  rewrite foldM_app, (paragraphs_loop_wf before [] Hwf). cbn [bind foldM].
  by destruct bad.
Qed.

Lemma extractor_bad_paragraph_raises_witness :
  parse_transcript (document (sample_paragraphs ++ JStr "text" :: []))
  = Raise AttributeError.
Proof.
  apply (extractor_bad_paragraph_raises
           {[ "minutes" := JDict {[ "paragraphs" :=
                JList (sample_paragraphs ++ JStr "text" :: []) ]} ]}
           {[ "paragraphs" := JList (sample_paragraphs ++ JStr "text" :: []) ]}
           sample_paragraphs [] (JStr "text"));
    vm_compute; reflexivity.
Defined.

(** X5.  The extractor reads no other field: a key other than [minutes] in
    the document, other than [paragraphs] in [minutes], or other than
    [speaker], [sentences] and [start_time] in a paragraph changes nothing. *)
Theorem extractor_ignores_other_fields :
  (∀ d k v, k ≠ "minutes" →
     parse_transcript (JDict (<[k := v]> d)) = parse_transcript (JDict d))
  ∧ (∀ d m k v,
       d !! "minutes" = Some (JDict m) → k ≠ "paragraphs" →
       parse_transcript (JDict (<[ "minutes" := JDict (<[k := v]> m) ]> d))
       = parse_transcript (JDict d))
  ∧ (∀ tr f k v,
       k ≠ "speaker" → k ≠ "sentences" → k ≠ "start_time" →
       paragraph_body tr (JDict (<[k := v]> f)) = paragraph_body tr (JDict f)).
Proof.
  split; [|split].
  - intros d k v Hk. unfold parse_transcript, py_in, py_getitem.
    by rewrite !lookup_insert_ne.
  - intros d m k v Hd Hk. unfold parse_transcript, py_in, py_getitem.
    rewrite !lookup_insert_eq, Hd. rewrite !bool_decide_eq_true_2 by eauto.
    cbn [bind]. by rewrite !lookup_insert_ne.
  - intros tr f k v H1 H2 H3. unfold paragraph_body, py_get.
    by rewrite !lookup_insert_ne.
Qed.

Lemma extractor_ignores_other_fields_witness :
  parse_transcript (JDict (<[ "title" := JStr "weekly" ]>
                             {[ "minutes" := JDict {[ "paragraphs" :=
                                  JList sample_paragraphs ]} ]}))
  = parse_transcript (document sample_paragraphs)
  ∧ parse_transcript
      (JDict (<[ "minutes" := JDict (<[ "id" := JInt 7 ]>
                                       {[ "paragraphs" := JList sample_paragraphs ]}) ]>
                {[ "minutes" := JDict {[ "paragraphs" := JList sample_paragraphs ]} ]}))
    = parse_transcript (document sample_paragraphs)
  ∧ paragraph_body [] (JDict (<[ "end_time" := JInt 9 ]> bare_paragraph))
    = paragraph_body [] (JDict bare_paragraph).
Proof.
  destruct extractor_ignores_other_fields as (H1 & H2 & H3).
  refine (conj _ (conj _ _)).
  - apply (H1 {[ "minutes" := JDict {[ "paragraphs" := JList sample_paragraphs ]} ]}
              "title" (JStr "weekly")). discriminate.
  - apply (H2 {[ "minutes" := JDict {[ "paragraphs" := JList sample_paragraphs ]} ]}
              {[ "paragraphs" := JList sample_paragraphs ]} "id" (JInt 7));
      [vm_compute; reflexivity | discriminate].
  - apply (H3 [] bare_paragraph "end_time" (JInt 9)); discriminate.
Defined.

(** ** Paragraphs whose texts hold any value *)

Lemma words_loop_shaped (words : list json) (parts : list json) :
  forallb is_dict words = true →
  foldM word_body parts words
  = Ok (parts ++ List.filter py_truthy (text_value <$> words)).
Proof.
  revert parts. induction words as [|w words IH]; intros parts; csimpl.
  - intros _. by rewrite app_nil_r.
  - intros [Hw Hws]%andb_prop. destruct w as [| | | | | |f]; try discriminate.
    unfold word_body at 1, py_get. cbn [bind text_value].
    rewrite (IH _ Hws). cbn [List.filter].
    destruct (py_truthy (default (JStr "") (f !! "text"))); [|done].
    by rewrite <- app_assoc.
Qed.

Lemma sentences_loop_shaped (sentences : list json) (parts : list json) :
  forallb shaped_sentence sentences = true →
  foldM sentence_body parts sentences
  = Ok (parts ++ List.filter py_truthy
                   (text_value <$> concat (words_of <$> sentences))).
Proof.
  revert parts. induction sentences as [|s sentences IH]; intros parts; csimpl.
  - intros _. by rewrite app_nil_r.
  - intros [Hs Hss]%andb_prop. destruct s as [| | | | | |f]; try discriminate.
    unfold sentence_body at 1, py_get, py_for. cbn [bind].
    unfold shaped_sentence in Hs. unfold words_of at 1.
    destruct (f !! "words") as [[| | | | |ws|]|]; try discriminate;
      cbn [default from_option id py_iter bind].
    + rewrite (words_loop_shaped _ _ Hs). cbn [bind]. rewrite (IH _ Hss).
      by rewrite fmap_app, List.filter_app, app_assoc.
    + cbn [foldM bind]. rewrite (IH _ Hss). reflexivity.
Qed.

(** What a paragraph of the expected shape does, whatever its texts. *)
Lemma paragraph_body_shaped (tr : list utterance) (p : json) :
  shaped_paragraph p = true →
  paragraph_body tr p
  = let parts := List.filter py_truthy (text_values p) in
    if py_truthy (JList parts) then
      c <- py_join parts ;;
      Ok (tr ++ [Utterance (speaker_of p) c (start_of p)])
    else Ok tr.
Proof.
  destruct p as [| | | | | |f]; try discriminate.
  unfold shaped_paragraph. intros [Hsp Hss]%andb_prop.
  unfold paragraph_body, py_get, py_for, text_values, sentences_of, speaker_of,
    start_of.
  cbn [bind].
  destruct (f !! "speaker") as [[| | | | | |sp]|]; try discriminate;
    destruct (f !! "sentences") as [[| | | | |ss|]|]; try discriminate;
    cbn [default from_option id bind py_iter foldM];
    try rewrite (sentences_loop_shaped _ _ Hss); cbn [bind app]; csimpl;
    try reflexivity.
Qed.

Lemma py_join_non_str (parts : list json) :
  Exists (fun v => is_str v = false) parts → py_join parts = Raise TypeError.
Proof.
  induction parts as [|v parts IH]; intros H; [by apply Exists_nil in H|].
  apply Exists_cons in H as [Hv|Hparts].
  - by destruct v.
  - destruct v; try reflexivity. cbn [py_join]. by rewrite IH.
Qed.

Lemma filter_nil_Forall {A : Type} (f : A → bool) (l : list A) :
  Forall (fun x => f x = false) l → List.filter f l = [].
Proof. induction 1 as [|x l Hx _ IH]; cbn [List.filter]; [done|]. by rewrite Hx. Qed.

(** X6.  A [text] that is true in a condition and is not a string (a
    non-zero number, [true], a non-empty list or mapping) makes the
    paragraph raise [TypeError] when the parts are joined. *)
Theorem extractor_non_string_text_raises (tr : list utterance) (p : json) :
  shaped_paragraph p = true →
  Exists (fun v => py_truthy v = true ∧ is_str v = false) (text_values p) →
  paragraph_body tr p = Raise TypeError.
Proof.
  intros Hp Hv. rewrite (paragraph_body_shaped tr p Hp). cbn zeta.
  assert (Hparts : Exists (fun v => is_str v = false)
                     (List.filter py_truthy (text_values p))).
  { apply List.Exists_exists in Hv as (v & Hin & Htrue & Hstr).
    apply List.Exists_exists. exists v. split; [|done].
    apply List.filter_In. done. }
  rewrite (py_join_non_str _ Hparts).
  destruct (List.filter py_truthy (text_values p)); [|done].
  by apply Exists_nil in Hparts.
Qed.

Lemma extractor_non_string_text_raises_witness :
  paragraph_body []
    (JDict {[ "sentences" :=
                JList [JDict {[ "words" :=
                         JList [word "x"; JDict {[ "text" := JInt 5 ]}] ]}] ]})
  = Raise TypeError.
Proof.
  apply (extractor_non_string_text_raises []).
  - vm_compute. reflexivity.
  - apply Exists_cons_tl, Exists_cons_hd. vm_compute. split; reflexivity.
Defined.

(** X7.  A [text] that is false in a condition is passed over like a
    missing one, string or not: a paragraph all of whose texts are empty,
    [null], zero, [false] or empty containers gives no utterance and no
    exception. *)
Theorem extractor_falsy_texts_give_nothing (tr : list utterance) (p : json) :
  shaped_paragraph p = true →
  Forall (fun v => py_truthy v = false) (text_values p) →
  paragraph_body tr p = Ok tr.
Proof.
  intros Hp Hv. rewrite (paragraph_body_shaped tr p Hp). cbn zeta.
  by rewrite (filter_nil_Forall _ _ Hv).
Qed.

Lemma extractor_falsy_texts_give_nothing_witness :
  paragraph_body []
    (JDict {[ "sentences" :=
                JList [JDict {[ "words" :=
                         JList [word ""; JDict {[ "text" := JNull ]};
                                JDict {[ "text" := JInt 0 ]}; JDict ∅] ]}] ]})
  = Ok [].
Proof.
  apply (extractor_falsy_texts_give_nothing []).
  - vm_compute. reflexivity.
  - vm_compute. repeat constructor.
Defined.

(** ** The merger on any start times *)

(** Induction on a value through the lists it nests. *)
Lemma json_list_ind (P : json → Prop) :
  P JNull → (∀ b, P (JBool b)) → (∀ n, P (JInt n)) → (∀ q, P (JFloat q)) →
  (∀ s, P (JStr s)) → (∀ l, Forall P l → P (JList l)) → (∀ d, P (JDict d)) →
  ∀ v, P v.
Proof.
  intros Hnull Hbool Hint Hfloat Hstr Hlist Hdict. fix IH 1.
  intros [|b|n|q|s|l|d];
    [exact Hnull|apply Hbool|apply Hint|apply Hfloat|apply Hstr| |apply Hdict].
  apply Hlist. induction l as [|x l IHl]; constructor; [apply IH|exact IHl].
Qed.

(** A comparison that raises raises [TypeError]. *)
Lemma py_lt_raises (a b : json) (e : exn) : py_lt a b = Raise e → e = TypeError.
Proof.
  revert b. induction a as [| | | | |l IH|] using json_list_ind;
    intros [| | | | |l'|]; cbn [py_lt num_val];
    try congruence; try (destruct b; congruence).
  revert l'. induction IH as [|x l Hx _ IHl]; intros [|y l'];
    try congruence.
  destruct (py_eq x y); [apply IHl|apply Hx].
Qed.

Lemma py_lt_unorderable_l (a b : json) :
  unorderable a = true → py_lt a b = Raise TypeError.
Proof. by destruct a, b. Qed.

Lemma py_lt_unorderable_r (a b : json) :
  unorderable b = true → py_lt a b = Raise TypeError.
Proof. by destruct a, b. Qed.

Section AnyKeys.
Context {A : Type}.

Lemma insort_raises (x : json * A) (l : list (json * A)) (e : exn) :
  insort x l = Raise e → e = TypeError.
Proof.
  induction l as [|y l IH]; cbn [insort]; [done|].
  destruct (py_lt x.1 y.1) as [[|]|e'] eqn:E; cbn [bind]; [done| |].
  - destruct (insort x l); cbn [bind]; [done|]. intros [= <-]. by apply IH.
  - intros [= <-]. by apply py_lt_raises in E.
Qed.

Lemma insort_loop_raises (l acc : list (json * A)) (e : exn) :
  foldM (fun sorted x => insort x sorted) acc l = Raise e → e = TypeError.
Proof.
  revert acc. induction l as [|x l IH]; intros acc; cbn [foldM]; [done|].
  destruct (insort x acc) eqn:E; cbn [bind]; [apply IH|].
  intros [= <-]. by apply insort_raises in E.
Qed.

Lemma insort_perm (x : json * A) (l r : list (json * A)) :
  insort x l = Ok r → r ≡ₚ x :: l.
Proof.
  revert r. induction l as [|y l IH]; intros r; cbn [insort].
  - by intros [= <-].
  - intros ([|] & _ & H)%bind_Ok_inv.
    + by injection H as <-.
    + apply bind_Ok_inv in H as (rest & Hrest & [= <-]).
      rewrite (IH _ Hrest). apply perm_swap.
Qed.

Lemma insort_loop_perm (l acc r : list (json * A)) :
  foldM (fun sorted x => insort x sorted) acc l = Ok r → r ≡ₚ acc ++ l.
Proof.
  revert acc. induction l as [|x l IH]; intros acc; cbn [foldM].
  - intros [= <-]. by rewrite app_nil_r.
  - intros (acc' & Hacc' & H)%bind_Ok_inv. rewrite (IH _ H).
    rewrite (insort_perm _ _ _ Hacc'). apply Permutation_middle.
Qed.

(** With a key that is always there, [list.sort] returns a permutation or
    raises [TypeError]. *)
Lemma list_sort_perm_or_raises (k : A → json) (l : list A) :
  (∃ r, list_sort (fun x => Ok (k x)) l = Ok r ∧ r ≡ₚ l)
  ∨ list_sort (fun x => Ok (k x)) l = Raise TypeError.
Proof.
  unfold list_sort. rewrite (mapM_total _ (fun x => (k x, x))).
  2:{ by apply Forall_true. }
  cbn [bind].
  destruct (foldM (fun sorted x => insort x sorted) [] ((λ x, (k x, x)) <$> l))
    as [sorted|e] eqn:E; cbn [bind].
  - left. eexists. split; [done|]. apply insort_loop_perm in E.
    rewrite E. cbn [app]. rewrite <- list_fmap_compose.
    by rewrite list_fmap_id.
  - right. by rewrite (insort_loop_raises _ _ _ E).
Qed.

(** An operand [<] does not accept stops the sort of two items or more. *)
Lemma insort_loop_unorderable (l : list (json * A)) :
  (2 ≤ length l)%nat →
  Exists (fun p => unorderable p.1 = true) l →
  foldM (fun sorted x => insort x sorted) [] l = Raise TypeError.
Proof.
  intros Hlen (u & (pre & post & ->)%List.in_split & Hu)%List.Exists_exists.
  destruct pre as [|p pre].
  - destruct post as [|y post]; [simpl in Hlen; lia|].
    cbn [app foldM insort bind]. by rewrite (py_lt_unorderable_r _ _ Hu).
  - rewrite foldM_app.
    destruct (foldM (λ sorted x, insort x sorted) [] (p :: pre))
      as [acc|e] eqn:E; cbn [bind].
    + apply insort_loop_perm in E.
      destruct acc as [|h acc].
      { apply Permutation_nil in E. discriminate. }
      cbn [foldM insort]. by rewrite (py_lt_unorderable_l _ _ Hu).
    + by rewrite (insort_loop_raises _ _ _ E).
Qed.

End AnyKeys.

Lemma merge_permutes_or_raises_aux (ts : list (list utterance)) :
  (∃ r, merge_transcripts ts = Ok r ∧ r ≡ₚ concat ts)
  ∨ merge_transcripts ts = Raise TypeError.
Proof.
  unfold merge_transcripts. rewrite extend_loop. cbn [app].
  apply list_sort_perm_or_raises.
Qed.

Lemma merge_unorderable_raises_aux (ts : list (list utterance)) :
  (2 ≤ length (concat ts))%nat →
  Exists (fun x => unorderable (start_time x) = true) (concat ts) →
  merge_transcripts ts = Raise TypeError.
Proof.
  intros Hlen Hex. unfold merge_transcripts, list_sort.
  rewrite extend_loop. cbn [app].
  rewrite (mapM_total _ (fun x => (start_time x, x))) by by apply Forall_true.
  cbn [bind]. rewrite insort_loop_unorderable; [done| |].
  - by rewrite length_fmap.
  - apply List.Exists_exists in Hex as (x & Hin & Hx).
    apply List.Exists_exists. exists (start_time x, x). split; [|done].
    apply (List.in_map (fun x => (start_time x, x))) in Hin. exact Hin.
Qed.

(** X8.  Whatever the start times, [merge_transcripts] either returns a
    permutation of the concatenation of its inputs or raises [TypeError]:
    it raises nothing else and never returns with a record lost or added. *)
Theorem merge_permutes_or_raises (ts : list (list utterance)) :
  (∃ r, merge_transcripts ts = Ok r ∧ r ≡ₚ concat ts)
  ∨ merge_transcripts ts = Raise TypeError.
Proof. apply merge_permutes_or_raises_aux. Qed.

(** X9.  With two records or more, a start time that is [null] or a mapping
    makes [merge_transcripts] raise [TypeError]. *)
Theorem merge_unorderable_raises (ts : list (list utterance)) :
  (2 ≤ length (concat ts))%nat →
  Exists (fun x => unorderable (start_time x) = true) (concat ts) →
  merge_transcripts ts = Raise TypeError.
Proof. apply merge_unorderable_raises_aux. Qed.

Lemma merge_unorderable_raises_witness :
  merge_transcripts [[said "a" 5]; [untimed "b"]] = Raise TypeError.
Proof.
  apply (merge_unorderable_raises [[said "a" 5]; [untimed "b"]]).
  - vm_compute. lia.
  - apply Exists_cons_tl, Exists_cons_hd. reflexivity.
Defined.

(** X10.  With fewer than two records nothing is compared: the merge
    returns the concatenation, whatever the start time is. *)
Theorem merge_short_never_raises (ts : list (list utterance)) :
  (length (concat ts) ≤ 1)%nat →
  merge_transcripts ts = Ok (concat ts).
Proof.
  intros Hlen. unfold merge_transcripts. rewrite extend_loop. cbn [app].
  destruct (concat ts) as [|x [|y l]]; [done|done|]. simpl in Hlen. lia.
Qed.

Lemma merge_short_never_raises_witness :
  merge_transcripts [[]; [untimed "b"]; []] = Ok [untimed "b"].
Proof.
  apply (merge_short_never_raises [[]; [untimed "b"]; []]). vm_compute. lia.
Defined.

(** X11.  Merging is idempotent: merging the result of a merge again, as a
    single input, returns it unchanged. *)
Theorem merge_idempotent (ts : list (list utterance)) :
  all_timed ts = true →
  (r <- merge_transcripts ts ;; merge_transcripts [r]) = merge_transcripts ts
  ∧ ∃ r, merge_transcripts ts = Ok r.
Proof.
  intros Hts. rewrite (merge_transcripts_timed ts Hts). cbn [bind].
  split; [|eauto]. rewrite merge_transcripts_timed.
  - cbn [concat]. rewrite app_nil_r. f_equal.
    apply stable_sort_sorted_id, stable_sort_sorted.
  - cbn [all_timed forallb]. rewrite timed_stable_sort; [done|].
    by apply all_timed_concat.
Qed.

Lemma merge_idempotent_witness :
  (r <- merge_transcripts [late_first; in_order] ;; merge_transcripts [r])
  = merge_transcripts [late_first; in_order]
  ∧ ∃ r, merge_transcripts [late_first; in_order] = Ok r.
Proof. apply (merge_idempotent [late_first; in_order]). vm_compute. reflexivity. Defined.

Lemma equal_times_sorted (t : Q) (l : list utterance) :
  Forall (fun x => Qeq_bool (utime x) t = true) l → time_sorted l.
Proof.
  induction 1 as [|x l Hx Hl IH]; constructor; [done|].
  eapply Forall_impl; [exact Hl|]. intros y Hy. cbn beta.
  apply Qeq_bool_iff in Hx, Hy. rewrite Hx, Hy. apply Qle_refl.
Qed.

(** X12.  When all the records have the same start time, for instance the
    default 0 of paragraphs without [start_time], the merge is the
    concatenation of the inputs in the order given. *)
Theorem merge_equal_times_is_concatenation
    (t : Q) (ts : list (list utterance)) :
  all_timed ts = true →
  forallb (fun x => Qeq_bool (utime x) t) (concat ts) = true →
  merge_transcripts ts = Ok (concat ts).
Proof.
  intros Hts Ht. rewrite (merge_transcripts_timed ts Hts). f_equal.
  apply stable_sort_sorted_id. apply (equal_times_sorted t).
  apply List.Forall_forall. by apply forallb_forall.
Qed.

Lemma merge_equal_times_is_concatenation_witness :
  merge_transcripts [[said "b" 0; said "a" 0]; [said "c" 0]]
  = Ok (concat [[said "b" 0; said "a" 0]; [said "c" 0]]).
Proof.
  apply (merge_equal_times_is_concatenation 0
           [[said "b" 0; said "a" 0]; [said "c" 0]]);
    vm_compute; reflexivity.
Defined.

(** ** The formatter on any transcript *)

Lemma str_app_assoc (a b c : string) :
  ((a ++ b) ++ c)%string = (a ++ b ++ c)%string.
Proof.
  induction a as [|x a IH]; [done|].
  change (String x ((a ++ b) ++ c) = String x (a ++ b ++ c))%string.
  by rewrite IH.
Qed.

Lemma str_join_cons (sep x y : string) (l : list string) :
  str_join sep (x :: y :: l) = (x ++ sep ++ str_join sep (y :: l))%string.
Proof. reflexivity. Qed.

Lemma str_join_app (sep : string) (l1 l2 : list string) :
  l1 ≠ [] → l2 ≠ [] →
  str_join sep (l1 ++ l2)
  = (str_join sep l1 ++ sep ++ str_join sep l2)%string.
Proof.
  intros H1 H2. induction l1 as [|x [|y l1] IH]; [done| |].
  - destruct l2 as [|z l2]; [done|]. reflexivity.
  - change ((x :: y :: l1) ++ l2) with (x :: y :: (l1 ++ l2)).
    rewrite !str_join_cons.
    change (y :: l1 ++ l2) with ((y :: l1) ++ l2). rewrite IH by done.
    by rewrite !str_app_assoc.
Qed.

Section FormatterFacts.
Context (py_str : json → string).

Lemma format_lines_loop (l : list utterance) (lines : list string) :
  fold_left
    (fun lines record =>
       lines ++ [("**[" ++ py_format py_str (speaker_name record) ++ "]**: "
                  ++ content record ++ nl)%string])
    l lines
  = lines ++ (record_line py_str <$> l).
Proof.
  revert lines. induction l as [|x l IH]; intros lines; csimpl.
  - by rewrite app_nil_r.
  - rewrite IH. by rewrite <- app_assoc.
Qed.

(** The rendering is the lines of the records joined by line feeds. *)
Lemma format_to_markdown_lines (l : list utterance) :
  format_to_markdown py_str l = str_join nl (record_line py_str <$> l).
Proof. unfold format_to_markdown. by rewrite format_lines_loop. Qed.

Lemma record_line_ends (x : utterance) :
  ∃ body, record_line py_str x = (body ++ nl)%string.
Proof.
  exists ("**[" ++ py_format py_str (speaker_name x) ++ "]**: "
          ++ content x)%string.
  unfold record_line. by rewrite !str_app_assoc.
Qed.

End FormatterFacts.

Lemma format_distributes_over_append_aux
    (py_str : json → string) (l1 l2 : list utterance) :
  l1 ≠ [] → l2 ≠ [] →
  format_to_markdown py_str (l1 ++ l2)
  = (format_to_markdown py_str l1 ++ nl
     ++ format_to_markdown py_str l2)%string.
Proof.
  intros H1 H2. rewrite !format_to_markdown_lines, fmap_app.
  apply str_join_app; by destruct l1, l2.
Qed.

(** X13.  Rendering distributes over concatenation: the rendering of two
    non-empty transcripts one after the other is the two renderings with one
    line feed between them, which shows as one blank line. *)
Theorem format_distributes_over_append
    (py_str : json → string) (l1 l2 : list utterance) :
  l1 ≠ [] → l2 ≠ [] →
  format_to_markdown py_str (l1 ++ l2)
  = (format_to_markdown py_str l1 ++ nl
     ++ format_to_markdown py_str l2)%string.
Proof. apply format_distributes_over_append_aux. Qed.

Lemma format_distributes_over_append_witness :
  format_to_markdown no_str ([alice] ++ in_order)
  = (format_to_markdown no_str [alice] ++ nl
     ++ format_to_markdown no_str in_order)%string.
Proof. apply (format_distributes_over_append no_str [alice] in_order); discriminate. Defined.

(** X14.  The rendering is empty for the empty transcript only, and the
    rendering of any other transcript ends with a line feed. *)
Theorem format_empty_or_ends_with_line_feed
    (py_str : json → string) (l : list utterance) :
  (format_to_markdown py_str l = "" ↔ l = [])
  ∧ (l ≠ [] → ∃ body, format_to_markdown py_str l = (body ++ nl)%string).
Proof.
  split; [split|].
  - destruct l as [|x [|y l]]; [done| |]; rewrite format_to_markdown_lines;
      csimpl; discriminate.
  - by intros ->.
  - intros Hl. destruct (exists_last Hl) as (l' & x & ->).
    destruct (record_line_ends py_str x) as (body & Hbody).
    destruct l' as [|y l'].
    + exists body. by rewrite format_to_markdown_lines.
    + rewrite format_distributes_over_append_aux by done.
      rewrite (format_to_markdown_lines py_str [x]). cbn [fmap list_fmap str_join].
      rewrite Hbody. eexists. by rewrite <- !str_app_assoc.
Qed.

Lemma format_empty_or_ends_with_line_feed_witness :
  ∃ body, format_to_markdown no_str in_order = (body ++ nl)%string.
Proof.
  apply (proj2 (format_empty_or_ends_with_line_feed no_str in_order)).
  discriminate.
Defined.

(** ** The process *)

Section MainFacts.
Context (py_str : json → string) (fs : gmap string (option json)).

Lemma load_step_transcripts (all : list (list utterance)) (out : list event)
    (p : string) :
  (load_step fs (all, out) p).1 = all ++ extracted fs [p].
Proof.
  unfold load_step, extracted, parse_transcript_file. cbn [omap list_omap].
  destruct (fs !! p) as [[data|]|].
  - rewrite bool_decide_eq_true_2 by eauto.
    by destruct (parse_transcript data); cbn; rewrite ?app_nil_r.
  - rewrite bool_decide_eq_true_2 by eauto. cbn. by rewrite app_nil_r.
  - rewrite bool_decide_eq_false_2 by by intros [? ?]. cbn. by rewrite app_nil_r.
Qed.

Lemma load_step_counts (all : list (list utterance)) (out : list event)
    (p : string) :
  reported_counts (load_step fs (all, out) p).2
  = reported_counts out ++ (length <$> extracted fs [p]).
Proof.
  unfold load_step, extracted, parse_transcript_file, reported_counts.
  cbn [omap list_omap].
  destruct (fs !! p) as [[data|]|].
  - rewrite bool_decide_eq_true_2 by eauto.
    destruct (parse_transcript data); cbn [snd];
      rewrite !omap_app; cbn; by rewrite ?app_nil_r.
  - rewrite bool_decide_eq_true_2 by eauto. cbn [snd].
    rewrite !omap_app. cbn. by rewrite ?app_nil_r.
  - rewrite bool_decide_eq_false_2 by by intros [? ?]. cbn [snd].
    rewrite !omap_app. cbn. by rewrite ?app_nil_r.
Qed.

Lemma extracted_cons (p : string) (paths : list string) :
  extracted fs (p :: paths) = extracted fs [p] ++ extracted fs paths.
Proof. unfold extracted. cbn [omap list_omap]. by destruct (parse_transcript_file fs p). Qed.

(** The loop over the paths collects the transcripts of the paths that load
    and extract, and reports the length of each. *)
Lemma load_loop (paths : list string) (all : list (list utterance))
    (out : list event) :
  (fold_left (load_step fs) paths (all, out)).1 = all ++ extracted fs paths
  ∧ reported_counts (fold_left (load_step fs) paths (all, out)).2
    = reported_counts out ++ (length <$> extracted fs paths).
Proof.
  revert all out. induction paths as [|p paths IH]; intros all out.
  - cbn. by rewrite !app_nil_r.
  - cbn [fold_left]. destruct (load_step fs (all, out) p) as [all' out'] eqn:E.
    destruct (IH all' out') as [IH1 IH2]. rewrite IH1, IH2.
    pose proof (load_step_transcripts all out p) as H1.
    pose proof (load_step_counts all out p) as H2.
    rewrite E in H1, H2. cbn [fst snd] in H1, H2. rewrite H1, H2.
    rewrite (extracted_cons p paths), fmap_app, <- !app_assoc. done.
Qed.


End MainFacts.

Section MainOutcome.
Context (py_str : json → string) (fs : gmap string (option json)).

(** With at least one path, the process concludes from the transcripts
    that were extracted and from output that reports their lengths. *)
Lemma main_concludes (argv : list string) :
  (2 ≤ length argv)%nat →
  ∃ out,
    reported_counts out = length <$> extracted fs (drop 1 argv)
    ∧ main py_str fs argv = conclude py_str (extracted fs (drop 1 argv), out).
Proof.
  intros Hlen. unfold main.
  destruct (Nat.ltb_spec (length argv) 2) as [?|_]; [lia|].
  destruct (load_loop fs (drop 1 argv) [] []) as [H1 H2].
  destruct (fold_left (load_step fs) (drop 1 argv) ([], [])) as [all out].
  cbn [fst snd app] in H1, H2. exists out. by rewrite H1, H2.
Qed.

Lemma main_without_paths (argv : list string) :
  (length argv < 2)%nat →
  main py_str fs argv = Run [Usage] (Exit 1) None
  ∧ extracted fs (drop 1 argv) = [].
Proof.
  intros Hlen. unfold main.
  destruct (Nat.ltb_spec (length argv) 2) as [_|?]; [|lia].
  split; [done|]. destruct argv as [|a [|b argv]]; [done|done|].
  simpl in Hlen. lia.
Qed.



End MainOutcome.




(** X18.  When the process finishes, the total it prints is the sum of the
    counts it reported for the transcripts, the text it prints is the text
    it writes, and the file is [transcript.md]. *)
Theorem main_total_is_sum_of_counts
    (py_str : json → string) (fs : gmap string (option json))
    (argv : list string) :
  ending (main py_str fs argv) = Finished →
  ∃ out markdown,
    stdout (main py_str fs argv)
    = out ++ [Total (sum_list (reported_counts out)); Markdown markdown;
              Saved "transcript.md"]
    ∧ written (main py_str fs argv) = Some ("transcript.md", markdown).
Proof.
  destruct (Nat.lt_ge_cases (length argv) 2) as [Hargv|Hargv].
  { by destruct (main_without_paths py_str fs argv Hargv) as [-> _]. }
  destruct (main_concludes py_str fs argv Hargv) as (out & Hout & ->).
  destruct (extracted fs (drop 1 argv)) as [|t1 [|t2 ts]] eqn:E; [done| |].
  - intros _. cbn. exists out. eexists. split; [|done].
    do 3 f_equal. rewrite Hout. cbn. lia.
  - unfold conclude. change (1 <? length (t1 :: t2 :: ts))%nat with true.
    cbn iota.
    destruct (merge_permutes_or_raises_aux (t1 :: t2 :: ts))
      as [(r & Hr & Hperm)| ->]; [|done].
    rewrite Hr. intros _. cbn [stdout written].
    exists (out ++ [Merging]). eexists. split; [|done].
    do 3 f_equal. unfold reported_counts in *. rewrite omap_app, Hout. cbn [omap list_omap].
    rewrite app_nil_r, Hperm. apply length_concat_sum.
Qed.


Lemma main_total_is_sum_of_counts_witness :
  ∃ out markdown,
    stdout (main no_str sample_fs
              ["prog"; "a.json"; "missing.json"; "null.json"; "b.json"])
    = out ++ [Total (sum_list (reported_counts out)); Markdown markdown;
              Saved "transcript.md"]
    ∧ written (main no_str sample_fs
                 ["prog"; "a.json"; "missing.json"; "null.json"; "b.json"])
      = Some ("transcript.md", markdown).
Proof.
  apply (main_total_is_sum_of_counts no_str sample_fs
           ["prog"; "a.json"; "missing.json"; "null.json"; "b.json"]).
  vm_compute. reflexivity.
Defined.

(** The run of the specification's end-to-end scenario, with a missing and
    a failing path among the arguments. *)
Example main_scenario :
  main no_str sample_fs ["prog"; "a.json"; "missing.json"; "null.json"; "b.json"]
  = Run [Parsing "a.json"; Extracted 1; Missing "missing.json";
         Parsing "null.json"; Failed "null.json" (ExtractFailure TypeError);
         Parsing "b.json"; Extracted 1; Merging; Total 2;
         Markdown ("**[B]**: Hi there" ++ nl ++ nl ++ "**[A]**: Hi there" ++ nl);
         Saved "transcript.md"]
        Finished
        (Some ("transcript.md",
               ("**[B]**: Hi there" ++ nl ++ nl ++ "**[A]**: Hi there" ++ nl)%string)).
Proof. vm_compute. reflexivity. Qed.

Lemma paragraph_body_length (tr : list utterance) (p : json)
    (tr' : list utterance) :
  paragraph_body tr p = Ok tr' → (length tr' ≤ S (length tr))%nat.
Proof.
  unfold paragraph_body.
  intros (speaker & _ & (name & _ & (sentences & _ &
            (parts & _ & H)%bind_Ok_inv)%bind_Ok_inv)%bind_Ok_inv)%bind_Ok_inv.
  destruct (py_truthy (JList parts)).
  - apply bind_Ok_inv in H as (c & _ & (t & _ & [= <-])%bind_Ok_inv).
    rewrite length_app. simpl. lia.
  - injection H as <-. lia.
Qed.

Lemma paragraphs_loop_length (ps : list json) (tr tr' : list utterance) :
  foldM paragraph_body tr ps = Ok tr' →
  (length tr' ≤ length tr + length ps)%nat.
Proof.
  revert tr. induction ps as [|p ps IH]; intros tr; cbn [foldM].
  - intros [= <-]. simpl. lia.
  - intros (tr1 & H1 & H)%bind_Ok_inv. apply paragraph_body_length in H1.
    apply IH in H. simpl. lia.
Qed.

(** X19.  Whatever the paragraphs hold, the extractor returns at most one
    utterance for each of them. *)
Theorem extractor_at_most_one_per_paragraph
    (d m : gmap string json) (ps : list json) (tr : list utterance) :
  d !! "minutes" = Some (JDict m) →
  m !! "paragraphs" = Some (JList ps) →
  parse_transcript (JDict d) = Ok tr →
  (length tr ≤ length ps)%nat.
Proof.
  intros Hd Hm. rewrite (parse_transcript_paragraphs d m ps Hd Hm).
  intros H%paragraphs_loop_length. simpl in H. lia.
Qed.

Lemma extractor_at_most_one_per_paragraph_witness :
  (length [Utterance (JStr "Al") "Hi there" (JInt 5)]
   ≤ length sample_paragraphs)%nat.
Proof.
  apply (extractor_at_most_one_per_paragraph
           {[ "minutes" := JDict {[ "paragraphs" := JList sample_paragraphs ]} ]}
           {[ "paragraphs" := JList sample_paragraphs ]});
    vm_compute; reflexivity.
Defined.

(** ** The merged list and the records of the inputs *)

(** X20.  The list [merge_transcripts] returns holds the references of the
    input lists themselves, each as often as the inputs hold it: the
    records are shared with the inputs, not copied. *)
Theorem merge_shares_the_records
    (h : gmap positive Store.obj) (transcripts : positive)
    (ts : list (list utterance)) :
  Store.read_transcripts h transcripts = Ok ts →
  all_timed ts = true →
  ∃ merged h' inputs itemss items,
    Store.merge_transcripts transcripts h = Ok (merged, h')
    ∧ Store.get_list h transcripts = Ok inputs
    ∧ Forall2 (fun t l => Store.get_list h t = Ok l) inputs itemss
    ∧ h' !! merged = Some (Store.OList items)
    ∧ items ≡ₚ concat itemss.
Proof.
  intros Hread Htimed.
  set (m := fresh (dom h)).
  assert (Hm : h !! m = None) by apply not_elem_of_dom, is_fresh.
  unfold Store.read_transcripts in Hread.
  apply bind_Ok_inv in Hread as (inputs & Hinputs & Hts).
  apply mapM_Ok_Forall2, read_transcripts_items in Hts
    as (itemss & Hitems & Hrecs).
  pose proof (mapM_concat _ _ _ Hrecs) as Hall.
  set (record_of := fun x =>
         match Store.get_record h x with
         | Ok r => r
         | Raise _ => Utterance JNull "" JNull
         end).
  apply mapM_Ok_Forall2 in Hall.
  assert (Hrec : Forall (fun x => Store.get_record h x = Ok (record_of x))
                        (concat itemss)).
  { clear -Hall. induction Hall as [|x r l rs Hx _ IH]; constructor; [|done].
    unfold record_of. by rewrite Hx. }
  assert (Hmap : record_of <$> concat itemss = concat ts).
  { clear -Hall. induction Hall as [|x r l rs Hx _ IH]; csimpl; [done|].
    rewrite IH. unfold record_of at 1. by rewrite Hx. }
  exists m, (<[m := Store.OList
                      (stable_sort (fun x => time_of (start_time (record_of x)))
                                   (concat itemss))]> h),
    inputs, itemss. eexists.
  split; [|split; [done|split; [done|split]]].
  - unfold Store.merge_transcripts. fold m.
    rewrite (get_list_frame h m Hm _ _ _ Hinputs). cbn [bind].
    rewrite (extend_loop_store h m Hm inputs itemss [] Hitems). cbn [bind app].
    rewrite get_list_written. cbn [bind].
    rewrite (list_sort_numeric _ (fun x => start_time (record_of x))).
    + cbn [bind]. by rewrite insert_insert_eq.
    + eapply Forall_impl; [exact Hrec|]. intros x Hx.
      by apply get_start_time_frame.
    + apply all_timed_concat, timed_Forall in Htimed.
      rewrite <- Hmap in Htimed. by apply Forall_fmap in Htimed.
  - apply lookup_insert_eq.
  - apply stable_sort_perm.
Qed.

Lemma merge_shares_the_records_witness :
  ∃ merged h' inputs itemss items,
    Store.merge_transcripts 1%positive sample_store = Ok (merged, h')
    ∧ Store.get_list sample_store 1%positive = Ok inputs
    ∧ Forall2 (fun t l => Store.get_list sample_store t = Ok l) inputs itemss
    ∧ h' !! merged = Some (Store.OList items)
    ∧ items ≡ₚ concat itemss.
Proof.
  apply (merge_shares_the_records sample_store 1%positive
           [[said "a" 5; said "b" 2]; [said "c" 3]]);
    vm_compute; reflexivity.
Defined.
